(** * An 8-bit machine: assembler ([asm.py]) and emulator ([emulator.py])

    A shallow embedding of the two Python programs and the properties
    their specification states about them.

    Conventions of the embedding.
    - A Python [str] is a [list ascii]: the characters are the code points
      below 256.  [isspace], [isdigit] and [upper] follow Python on that
      range; the two characters whose upper case lies outside it
      (U+00B5, U+00FF) are left as they are, which no comparison with the
      ASCII mnemonics and register names can observe.
    - A Python [int] is a [Z]; [%] is [Z.modulo] and [&] is [Z.land], which
      agree with Python on negative numbers too.
    - A Python list indexed by an [int] is a [list] read and written through
      [Py.get] and [Py.set], which raise [IndexError] out of range and count
      negative indices from the end, as Python does.
    - The label table (a [dict]) is a [gmap].
    - Exceptions are values of [exn]; code that can raise returns a
      [result]. *)

From Stdlib Require Import ZArith Ascii String List Lia Bool.
From Stdlib Require Import DecimalString HexadecimalString DecimalN.
From stdpp Require Import base option list gmap strings.
Import ListNotations.

Local Open Scope Z_scope.
Local Open Scope list_scope.

(** ** Python values *)

Abbreviation pystr := (list ascii).

(** A string literal of the source, as a Python [str]. *)
Definition str (s : string) : pystr := list_ascii_of_string s.

Definition ord (c : ascii) : Z := Z.of_N (N_of_ascii c).
Definition chr (z : Z) : ascii := ascii_of_N (Z.to_N z).

Inductive message :=
| UnknownValue (token : pystr)
| UnknownOp (op : pystr)
| UnhandledOp (op : pystr)
| InvalidLiteral (base : Z) (token : pystr).

Inductive exn :=
| ValueError (m : message)
| KeyError (key : pystr)
| IndexError.

Inductive result (A : Type) :=
| Ok (a : A)
| Raise (e : exn).
Arguments Ok {A} a.
Arguments Raise {A} e.

Definition rbind {A B} (m : result A) (f : A -> result B) : result B :=
  match m with
  | Ok a => f a
  | Raise e => Raise e
  end.

Declare Scope result_scope.
Delimit Scope result_scope with result.
Notation "'let!' x ':=' m 'in' k" := (rbind m (fun x => k))
  (at level 10, x pattern, m at level 100, k at level 200) : result_scope.

(** ** The [str] methods the assembler uses *)

Module Py.

Definition eqs (a b : pystr) : bool := bool_decide (a = b).

(** [str.isspace] on one character. *)
Definition isspace (c : ascii) : bool :=
  let n := ord c in
  ((9 <=? n) && (n <=? 13)) || ((28 <=? n) && (n <=? 32))
  || (n =? 133) || (n =? 160).

Fixpoint lstrip (s : pystr) : pystr :=
  match s with
  | c :: s' => if isspace c then lstrip s' else s
  | [] => []
  end.

Definition rstrip (s : pystr) : pystr := rev (lstrip (rev s)).

(** [s.strip()] *)
Definition strip (s : pystr) : pystr := rstrip (lstrip s).

Fixpoint lstrip_char (x : ascii) (s : pystr) : pystr :=
  match s with
  | c :: s' => if bool_decide (c = x) then lstrip_char x s' else s
  | [] => []
  end.

(** [s.rstrip(x)] for a one-character [x] *)
Definition rstrip_char (x : ascii) (s : pystr) : pystr :=
  rev (lstrip_char x (rev s)).

(** [s.split(x, 1)[0]]: what comes before the first [x]. *)
Fixpoint before (x : ascii) (s : pystr) : pystr :=
  match s with
  | c :: s' => if bool_decide (c = x) then [] else c :: before x s'
  | [] => []
  end.

(** [s.split(x)] for a one-character [x]: never the empty list. *)
Fixpoint split (x : ascii) (s : pystr) : list pystr :=
  match s with
  | [] => [[]]
  | c :: s' =>
      if bool_decide (c = x) then [] :: split x s'
      else match split x s' with
           | p :: ps => (c :: p) :: ps
           | [] => [[c]]
           end
  end.

(** [sep.join(l)] *)
Fixpoint join (sep : pystr) (l : list pystr) : pystr :=
  match l with
  | [] => []
  | [a] => a
  | a :: l' => a ++ sep ++ join sep l'
  end.

Fixpoint startswith (s p : pystr) : bool :=
  match p, s with
  | [], _ => true
  | x :: p', c :: s' => bool_decide (c = x) && startswith s' p'
  | _ :: _, [] => false
  end.

Definition endswith (s p : pystr) : bool := startswith (rev s) (rev p).

(** [str.upper] on one character; the sharp s becomes two letters. *)
Definition upper_char (c : ascii) : pystr :=
  let n := ord c in
  if (97 <=? n) && (n <=? 122) then [chr (n - 32)]
  else if n =? 223 then str "SS"
  else if (224 <=? n) && (n <=? 254) && negb (n =? 247) then [chr (n - 32)]
  else [c].

Definition upper (s : pystr) : pystr := concat (map upper_char s).

(** [str.isdigit]: the decimal digits and the superscripts one, two and
    three, and false on the empty string. *)
Definition isdigit_char (c : ascii) : bool :=
  let n := ord c in
  ((48 <=? n) && (n <=? 57)) || (n =? 178) || (n =? 179) || (n =? 185).

Definition isdigit (s : pystr) : bool :=
  match s with
  | [] => false
  | _ => forallb isdigit_char s
  end.

(** [s[:-1]] and [s[1:-1]] *)
Definition drop_last (s : pystr) : pystr := removelast s.
Definition inner (s : pystr) : pystr := removelast (tail s).

(** The value of a digit of [int(s, base)]. *)
Definition digit_val (c : ascii) : option Z :=
  let n := ord c in
  if (48 <=? n) && (n <=? 57) then Some (n - 48)
  else if (97 <=? n) && (n <=? 122) then Some (n - 87)
  else if (65 <=? n) && (n <=? 90) then Some (n - 55)
  else None.

(** Digits with single underscores between them. *)
Fixpoint digits (base acc : Z) (after_digit : bool) (s : pystr) : option Z :=
  match s with
  | [] => if after_digit then Some acc else None
  | c :: s' =>
      if bool_decide (c = "_"%char) then
        if after_digit then digits base acc false s' else None
      else
        match digit_val c with
        | Some d =>
            if d <? base then digits base (acc * base + d) true s' else None
        | None => None
        end
  end.

(** [int(s, base)] for base 10 and 16: surrounding white space, a sign, for
    base 16 a [0x] prefix (after which one underscore may stand), then the
    digits.  Python's limit on the number of decimal digits (4300 by
    default) is not modelled. *)
Definition int (s : pystr) (base : Z) : result Z :=
  let t := strip s in
  let '(sign, t) :=
    match t with
    | "-"%char :: r => (-1, r)
    | "+"%char :: r => (1, r)
    | _ => (1, t)
    end in
  let t :=
    if (base =? 16) && (startswith t (str "0x") || startswith t (str "0X"))
    then match drop 2 t with
         | "_"%char :: r => r
         | r => r
         end
    else t in
  match digits base 0 false t with
  | Some v => Ok (sign * v)
  | None => Raise (ValueError (InvalidLiteral base s))
  end.

(** [l[i]] on a Python list *)
Definition get {A} (l : list A) (i : Z) : result A :=
  let n := Z.of_nat (length l) in
  let j := if i <? 0 then i + n else i in
  if (0 <=? j) && (j <? n) then
    match l !! Z.to_nat j with
    | Some a => Ok a
    | None => Raise IndexError
    end
  else Raise IndexError.

(** [l[i] = a] on a Python list *)
Definition set {A} (l : list A) (i : Z) (a : A) : result (list A) :=
  let n := Z.of_nat (length l) in
  let j := if i <? 0 then i + n else i in
  if (0 <=? j) && (j <? n) then Ok (<[Z.to_nat j := a]> l)
  else Raise IndexError.

End Py.

(** ** The opcode table, which both programs define alike *)

Definition OP_NOP : Z := 0x00.
Definition OP_LDI : Z := 0x10.
Definition OP_MOV : Z := 0x11.
Definition OP_STR : Z := 0x12.
Definition OP_ADD : Z := 0x20.
Definition OP_SUB : Z := 0x21.
Definition OP_JMP : Z := 0x30.
Definition OP_JZ : Z := 0x31.
Definition OP_JNZ : Z := 0x32.
Definition OP_OUT : Z := 0x40.
Definition OP_IN : Z := 0x41.
Definition OP_HLT : Z := 0xFF.

(** The table [OP]: [OP[name]] raises [KeyError] on another name. *)
Definition OP (name : pystr) : result Z :=
  if Py.eqs name (str "NOP") then Ok OP_NOP
  else if Py.eqs name (str "LDI") then Ok OP_LDI
  else if Py.eqs name (str "MOV") then Ok OP_MOV
  else if Py.eqs name (str "STR") then Ok OP_STR
  else if Py.eqs name (str "ADD") then Ok OP_ADD
  else if Py.eqs name (str "SUB") then Ok OP_SUB
  else if Py.eqs name (str "JMP") then Ok OP_JMP
  else if Py.eqs name (str "JZ") then Ok OP_JZ
  else if Py.eqs name (str "JNZ") then Ok OP_JNZ
  else if Py.eqs name (str "OUT") then Ok OP_OUT
  else if Py.eqs name (str "IN") then Ok OP_IN
  else if Py.eqs name (str "HLT") then Ok OP_HLT
  else Raise (KeyError name).

(** ** asm.py *)

Module Asm.

(** The table [REGS] *)
Definition REGS (name : pystr) : result Z :=
  if Py.eqs name (str "A") then Ok 0
  else if Py.eqs name (str "B") then Ok 1
  else Raise (KeyError name).

(** The state of the loop of [tokenize]. *)
Record scanner := Scanner {
  tokens : list pystr;
  current : pystr;
  in_quote : bool;
  quote_char : pystr
}.

(** The double quote character. *)
Definition dquote : ascii := "034"%char.

Definition is_quote (ch : ascii) : bool :=
  bool_decide (ch = dquote) || bool_decide (ch = "'"%char).

Definition is_sep (ch : ascii) : bool :=
  bool_decide (ch = " "%char) || bool_decide (ch = "009"%char)
  || bool_decide (ch = ","%char).

(** One turn of the loop [for ch in line]. *)
Definition scan (st : scanner) (ch : ascii) : scanner :=
  if in_quote st then
    Scanner (tokens st) (current st ++ [ch])
            (if Py.eqs [ch] (quote_char st) then false else true)
            (quote_char st)
  else if is_quote ch then
    Scanner (tokens st) (current st ++ [ch]) true [ch]
  else if is_sep ch then
    match current st with
    | [] => st
    | _ => Scanner (tokens st ++ [current st]) [] (in_quote st) (quote_char st)
    end
  else
    Scanner (tokens st) (current st ++ [ch]) (in_quote st) (quote_char st).

Definition scan_start : scanner := Scanner [] [] false [].

Definition flush (st : scanner) : list pystr :=
  match current st with
  | [] => tokens st
  | _ => tokens st ++ [current st]
  end.

Definition tokenize (line : pystr) : list pystr :=
  let line := Py.strip (Py.before ";"%char line) in
  match line with
  | [] => []
  | _ => flush (fold_left scan line scan_start)
  end.


Local Open Scope result_scope.

Definition parse_value (token : pystr) (labels : gmap pystr Z) : result Z :=
  let token := Py.strip token in
  if Py.startswith token (str "'") && Py.endswith token (str "'")
     && (Z.of_nat (length token) =? 3) then
    let! c := Py.get token 1 in Ok (ord c)
  else if Py.startswith token (str "0x") then
    Py.int token 16
  else if Py.isdigit token
          || (Py.startswith token (str "-") && Py.isdigit (tail token)) then
    let! v := Py.int token 10 in Ok (Z.land v 0xFF)
  else
    match labels !! token with
    | Some v => Ok v
    | None => Raise (ValueError (UnknownValue token))
    end.

Definition mem (x : pystr) (l : list string) : bool :=
  existsb (fun y => Py.eqs x (str y)) l.

(** An entry of [parsed]: the address, the mnemonic and its raw operands. *)
Definition entry : Type := Z * pystr * list pystr.

(** The variables of the first pass. *)
Record pass1_state := Pass1 {
  labels : gmap pystr Z;
  pc : Z;
  parsed : list entry
}.

(** The size the first pass gives an instruction. *)
Definition size (op : pystr) (args : list pystr) : result Z :=
  if Py.eqs op (str "DB") then
    Ok (Z.of_nat (length (Py.split ","%char (Py.join (str " ") args))))
  else if mem op ["LDI"; "MOV"; "STR"]%string then Ok 3
  else if mem op ["ADD"; "SUB"]%string then Ok 3
  else if mem op ["JMP"; "JZ"; "JNZ"]%string then Ok 2
  else if mem op ["OUT"; "IN"]%string then Ok 2
  else if mem op ["NOP"; "HLT"]%string then Ok 1
  else Raise (ValueError (UnknownOp op)).

(** The body of the loop of the first pass. *)
Definition pass1_line (st : pass1_state) (raw : pystr) : result pass1_state :=
  let line := Py.strip raw in
  if Py.eqs line [] || Py.startswith line (str ";") then Ok st
  else if Py.endswith line (str ":") then
    let lbl := Py.strip (Py.drop_last line) in
    Ok (Pass1 (<[lbl := pc st]> (labels st)) (pc st) (parsed st))
  else
    match tokenize line with
    | [] => Ok st
    | t :: args =>
        let op := Py.upper t in
        let! n := size op args in
        Ok (Pass1 (labels st) (pc st + n) (parsed st ++ [(pc st, op, args)]))
    end.

Fixpoint pass1_loop (st : pass1_state) (lines : list pystr)
  : result pass1_state :=
  match lines with
  | [] => Ok st
  | raw :: rest => let! st' := pass1_line st raw in pass1_loop st' rest
  end.

Definition pass1 (lines : list pystr) : result pass1_state :=
  pass1_loop (Pass1 ∅ 0 []) lines.

Fixpoint mapM {A B} (f : A -> result B) (l : list A) : result (list B) :=
  match l with
  | [] => Ok []
  | a :: l' => let! b := f a in let! bs := mapM f l' in Ok (b :: bs)
  end.

(** The bytes of one data token of [DB]. *)
Definition db_token (labels : gmap pystr Z) (tok : pystr) : result (list Z) :=
  let tok := Py.strip tok in
  if Py.startswith tok [dquote] && Py.endswith tok [dquote] then
    Ok (map (fun ch => Z.land (ord ch) 0xFF) (Py.inner tok))
  else
    let! v := parse_value tok labels in Ok [Z.land v 0xFF].

Definition reg_operand (a : pystr) : pystr :=
  Py.upper (Py.rstrip_char ","%char (Py.strip a)).

(** The body of the loop of the second pass: the bytes of one entry. *)
Definition gen (labels : gmap pystr Z) (e : entry) : result (list Z) :=
  let '(addr, op, args) := e in
  let o := Py.upper op in
  if Py.eqs o (str "DB") then
    let data_tokens :=
      concat (map (fun a => filter (fun x => x <> []) (Py.split ","%char a))
                  args) in
    let! bs := mapM (db_token labels) data_tokens in
    Ok (concat bs)
  else if mem o ["LDI"; "MOV"; "STR"]%string then
    (* three branches of the source with the same text but for the name *)
    let! a0 := Py.get args 0 in
    let reg := reg_operand a0 in
    let! a1 := Py.get args 1 in
    let imm := Py.strip a1 in
    let! opc := OP o in
    let! r := REGS reg in
    let! v := parse_value imm labels in
    Ok [opc; r; Z.land v 0xFF]
  else if mem o ["ADD"; "SUB"]%string then
    let! a0 := Py.get args 0 in
    let r1 := reg_operand a0 in
    let! a1 := Py.get args 1 in
    let r2 := Py.upper (Py.strip a1) in
    let! opc := OP o in
    let! x1 := REGS r1 in
    let! x2 := REGS r2 in
    Ok [opc; x1; x2]
  else if mem o ["JMP"; "JZ"; "JNZ"]%string then
    let! opc := OP o in
    let! a0 := Py.get args 0 in
    let addr_tok := Py.strip a0 in
    let! v := parse_value addr_tok labels in
    Ok [opc; Z.land v 0xFF]
  else if mem o ["OUT"; "IN"]%string then
    let! a0 := Py.get args 0 in
    let reg := Py.upper (Py.strip a0) in
    let! opc := OP o in
    let! r := REGS reg in
    Ok [opc; r]
  else if mem o ["NOP"; "HLT"]%string then
    let! opc := OP o in Ok [opc]
  else Raise (ValueError (UnhandledOp o)).

Definition pass2 (labels : gmap pystr Z) (parsed : list entry)
  : result (list Z) :=
  let! bs := mapM (gen labels) parsed in Ok (concat bs).

Definition assemble (lines : list pystr) : result (list Z) :=
  let! st := pass1 lines in
  pass2 (labels st) (parsed st).

End Asm.

(** ** emulator.py *)

Module Emu.

Definition RAM_SIZE : Z := 256.
Definition REG_A : Z := 0.
Definition REG_B : Z := 1.

(** The attributes of [class CPU]. *)
Record CPU := Cpu {
  ram : list Z;
  reg : list Z;
  pc : Z;
  zero : bool;
  running : bool;
  trace : bool
}.

(** A CPU with what remains to be read on standard input and what was
    written to standard output. *)
Record world := World {
  cpu : CPU;
  stdin : pystr;
  stdout : pystr
}.

(** [CPU.__init__] *)
Definition init : CPU :=
  Cpu (repeat 0 (Z.to_nat RAM_SIZE)) [0; 0] 0 false false false.

(** Methods run in a state monad with exceptions: the state a raised
    exception leaves behind is kept, as a mutated Python object is. *)
Definition M (A : Type) : Type := world -> result A * world.

Definition ret {A} (a : A) : M A := fun w => (Ok a, w).

Definition bind {A B} (m : M A) (f : A -> M B) : M B :=
  fun w =>
    match m w with
    | (Ok a, w') => f a w'
    | (Raise e, w') => (Raise e, w')
    end.

Declare Scope emu_scope.
Delimit Scope emu_scope with emu.
Notation "x <- m ;; k" := (bind m (fun x => k))
  (at level 100, m at next level, right associativity) : emu_scope.
Notation "m ;; k" := (bind m (fun _ => k))
  (at level 100, right associativity) : emu_scope.
Local Open Scope emu_scope.

Definition lift {A} (r : result A) : M A := fun w => (r, w).

Definition gets {A} (f : CPU -> A) : M A := fun w => (Ok (f (cpu w)), w).

Definition modify (f : CPU -> CPU) : M unit :=
  fun w => (Ok tt, World (f (cpu w)) (stdin w) (stdout w)).

Definition with_ram (l : list Z) (c : CPU) : CPU :=
  Cpu l (reg c) (pc c) (zero c) (running c) (trace c).
Definition with_reg (l : list Z) (c : CPU) : CPU :=
  Cpu (ram c) l (pc c) (zero c) (running c) (trace c).
Definition with_pc (z : Z) (c : CPU) : CPU :=
  Cpu (ram c) (reg c) z (zero c) (running c) (trace c).
Definition with_zero (b : bool) (c : CPU) : CPU :=
  Cpu (ram c) (reg c) (pc c) b (running c) (trace c).
Definition with_running (b : bool) (c : CPU) : CPU :=
  Cpu (ram c) (reg c) (pc c) (zero c) b (trace c).
Definition with_trace (b : bool) (c : CPU) : CPU :=
  Cpu (ram c) (reg c) (pc c) (zero c) (running c) b.

(** [self.ram[i]] and [self.ram[i] = v] *)
Definition ram_get (i : Z) : M Z :=
  l <- gets ram ;; lift (Py.get l i).
Definition ram_set (i v : Z) : M unit :=
  l <- gets ram ;; l' <- lift (Py.set l i v) ;; modify (with_ram l').

(** [self.reg[i]] and [self.reg[i] = v] *)
Definition reg_get (i : Z) : M Z :=
  l <- gets reg ;; lift (Py.get l i).
Definition reg_set (i v : Z) : M unit :=
  l <- gets reg ;; l' <- lift (Py.set l i v) ;; modify (with_reg l').

(** [sys.stdout.write(s)] *)
Definition write (s : pystr) : M unit :=
  fun w => (Ok tt, World (cpu w) (stdin w) (stdout w ++ s)).

(** [print(s)] *)
Definition print (s : pystr) : M unit := write (s ++ ["010"%char]).

(** [sys.stdin.read(1)]: the empty string at the end of the input. *)
Definition read1 : M pystr :=
  fun w =>
    match stdin w with
    | [] => (Ok [], w)
    | ch :: rest => (Ok [ch], World (cpu w) rest (stdout w))
    end.

(** The format [{z:02X}]: upper-case hexadecimal, zero-filled to two
    characters, the sign of a negative number counting as one of them. *)
Definition hex (z : Z) : pystr :=
  Py.upper (str (NilZero.string_of_uint (N.to_hex_uint (Z.to_N z)))).

Definition zfill (width : nat) (s : pystr) : pystr :=
  repeat "0"%char (width - length s) ++ s.

Definition fmt_02X (z : Z) : pystr :=
  if z <? 0 then "-"%char :: zfill 1 (hex (- z)) else zfill 2 (hex z).

(** [CPU.load_bin]: the loop over [enumerate(data)] from index [i] on. *)
Fixpoint load_loop (addr i : Z) (data : list Z) : M unit :=
  match data with
  | [] => ret tt
  | b :: rest =>
      ram_set ((addr + i) mod RAM_SIZE) (Z.land b 0xFF) ;;
      load_loop addr (i + 1) rest
  end.

Definition load_bin (data : list Z) (addr : Z) : M unit :=
  load_loop addr 0 data.

(** [x = self.ram[self.pc]; self.pc = (self.pc+1)%RAM_SIZE] *)
Definition fetch : M Z :=
  p <- gets pc ;;
  x <- ram_get p ;;
  p <- gets pc ;;
  modify (with_pc ((p + 1) mod RAM_SIZE)) ;;
  ret x.

(** [self.zero = (self.reg[REG_A] == 0)] *)
Definition set_zero_from_A : M unit :=
  a <- reg_get REG_A ;;
  modify (with_zero (a =? 0)).

(** [CPU.step] *)
Definition step : M bool :=
  p <- gets pc ;;
  opcode <- ram_get p ;;
  t <- gets trace ;;
  (if t then
     p <- gets pc ;;
     print (str "[PC=" ++ fmt_02X p ++ str "] OPCODE " ++ fmt_02X opcode)
   else ret tt) ;;
  p <- gets pc ;;
  modify (with_pc ((p + 1) mod RAM_SIZE)) ;;
  if opcode =? OP_NOP then
    ret true
  else if opcode =? OP_LDI then
    r <- fetch ;;
    imm <- fetch ;;
    reg_set r (Z.land imm 0xFF) ;;
    set_zero_from_A ;;
    ret true
  else if opcode =? OP_MOV then
    r <- fetch ;;
    addr <- fetch ;;
    v <- ram_get addr ;;
    reg_set r v ;;
    set_zero_from_A ;;
    ret true
  else if opcode =? OP_STR then
    r <- fetch ;;
    addr <- fetch ;;
    v <- reg_get r ;;
    ram_set addr (Z.land v 0xFF) ;;
    ret true
  else if opcode =? OP_ADD then
    r1 <- fetch ;;
    r2 <- fetch ;;
    x <- reg_get r1 ;;
    y <- reg_get r2 ;;
    reg_set REG_A (Z.land (x + y) 0xFF) ;;
    set_zero_from_A ;;
    ret true
  else if opcode =? OP_SUB then
    r1 <- fetch ;;
    r2 <- fetch ;;
    x <- reg_get r1 ;;
    y <- reg_get r2 ;;
    reg_set REG_A (Z.land (x - y) 0xFF) ;;
    set_zero_from_A ;;
    ret true
  else if opcode =? OP_JMP then
    p <- gets pc ;;
    addr <- ram_get p ;;
    modify (with_pc (addr mod RAM_SIZE)) ;;
    ret true
  else if opcode =? OP_JZ then
    addr <- fetch ;;
    z <- gets zero ;;
    (if z then modify (with_pc (addr mod RAM_SIZE)) else ret tt) ;;
    ret true
  else if opcode =? OP_JNZ then
    addr <- fetch ;;
    z <- gets zero ;;
    (if negb z then modify (with_pc (addr mod RAM_SIZE)) else ret tt) ;;
    ret true
  else if opcode =? OP_OUT then
    r <- fetch ;;
    v <- reg_get r ;;
    write [chr (Z.land v 0xFF)] ;;
    ret true
  else if opcode =? OP_IN then
    r <- fetch ;;
    ch <- read1 ;;
    val <- (if Py.eqs ch [] then ret 0
            else c <- lift (Py.get ch 0) ;; ret (ord c)) ;;
    reg_set r (Z.land val 0xFF) ;;
    set_zero_from_A ;;
    ret true
  else if opcode =? OP_HLT then
    ret false
  else
    p <- gets pc ;;
    print (str "Unknown opcode " ++ fmt_02X opcode ++ str " at "
           ++ fmt_02X (p - 1)) ;;
    ret false.

(** The loop of [CPU.run], for at most [fuel] steps: [true] when a step
    said to stop, [false] when the fuel ran out first. *)
Fixpoint loop (fuel : nat) : M bool :=
  match fuel with
  | O => ret false
  | S fuel' =>
      cont <- step ;;
      if cont then loop fuel' else ret true
  end.

(** [CPU.run] *)
Definition run (start : Z) (tr : bool) (fuel : nat) : M bool :=
  modify (with_pc (start mod RAM_SIZE)) ;;
  modify (with_trace tr) ;;
  modify (with_running true) ;;
  halted <- loop fuel ;;
  if halted then modify (with_running false) ;; ret true
  else ret false.

(** [CPU.dump_regs] *)
Definition dump_regs : M unit :=
  p <- gets pc ;;
  a <- reg_get 0 ;;
  b <- reg_get 1 ;;
  z <- gets zero ;;
  print (str "PC: " ++ fmt_02X p ++ str "  A: " ++ fmt_02X a
         ++ str "  B: " ++ fmt_02X b
         ++ str "  Z:" ++ (if z then str "1" else str "0")).

(** The loop of [CPU.dump_mem] over [range(start, start+length)], from
    [addr] on for [n] more addresses. *)
Fixpoint dump_loop (start addr : Z) (n : nat) : M unit :=
  match n with
  | O => ret tt
  | S n' =>
      let a := addr mod RAM_SIZE in
      (if (a - start) mod 16 =? 0
       then write (["010"%char] ++ fmt_02X a ++ str ": ")
       else ret tt) ;;
      v <- ram_get a ;;
      write (fmt_02X v ++ str " ") ;;
      dump_loop start (addr + 1) n'
  end.

(** [CPU.dump_mem] *)
Definition dump_mem (start length : Z) : M unit :=
  dump_loop start start (Z.to_nat length) ;;
  print [].

End Emu.

(** ** The vocabulary of the specification *)

Module Spec.

Import Emu.

Definition is_byte (z : Z) : Prop := 0 <= z < 256.

(** The data model of a CPU state: 256 bytes of RAM, two byte registers and
    a byte program counter. *)
Record wf (c : CPU) : Prop := Wf {
  wf_ram_len : length (ram c) = 256%nat;
  wf_reg_len : length (reg c) = 2%nat;
  wf_pc : is_byte (pc c);
  wf_ram : Forall is_byte (ram c);
  wf_reg : Forall is_byte (reg c)
}.

(** The data model as a test that computes. *)
Definition is_byte_b (z : Z) : bool := (0 <=? z) && (z <? 256).

Definition wf_b (c : CPU) : bool :=
  (length (ram c) =? 256)%nat && (length (reg c) =? 2)%nat
  && is_byte_b (pc c) && forallb is_byte_b (ram c)
  && forallb is_byte_b (reg c).

(** A new CPU whose RAM begins with the given bytes, at address [at_pc]. *)
Definition machine (image : list Z) (at_pc : Z) : CPU :=
  with_pc at_pc
    (with_ram (image ++ repeat 0 (256 - length image)) init).

(** RAM[i] and register[r], read without raising. *)
Definition peek (c : CPU) (i : Z) : Z := default 0 (ram c !! Z.to_nat i).
Definition regv (c : CPU) (r : Z) : Z := default 0 (reg c !! Z.to_nat r).

(** [self.zero = (self.reg[REG_A] == 0)] as a function on states. *)
Definition flag_of_A (c : CPU) : CPU := with_zero (regv c 0 =? 0) c.

(** Standard output once [step] has printed its trace line, if tracing is
    on. *)
Definition trace_out (w : world) : pystr :=
  if trace (cpu w) then
    stdout w
    ++ (str "[PC=" ++ fmt_02X (pc (cpu w)) ++ str "] OPCODE "
        ++ fmt_02X (peek (cpu w) (pc (cpu w)))) ++ ["010"%char]
  else stdout w.

(** The character [IN] stores: 0 at the end of the input. *)
Definition next_input (w : world) : Z :=
  match stdin w with
  | [] => 0
  | ch :: _ => ord ch
  end.

(** The twelve opcode bytes. *)
Definition opcodes : list Z :=
  [OP_NOP; OP_LDI; OP_MOV; OP_STR; OP_ADD; OP_SUB;
   OP_JMP; OP_JZ; OP_JNZ; OP_OUT; OP_IN; OP_HLT].

(** The instructions whose first operand byte selects a register. *)
Definition reg_opcodes : list Z :=
  [OP_LDI; OP_MOV; OP_STR; OP_ADD; OP_SUB; OP_OUT; OP_IN].

(** The byte at the program counter and the two bytes after it. *)
Definition opcode_at (c : CPU) : Z := peek c (pc c).
Definition operand1 (c : CPU) : Z := peek c ((pc c + 1) mod 256).
Definition operand2 (c : CPU) : Z := peek c ((pc c + 2) mod 256).

(** Some register operand byte of the instruction at the program counter
    is not 0 or 1. *)
Definition bad_register_operand (c : CPU) : Prop :=
  (In (opcode_at c) [OP_LDI; OP_MOV; OP_STR; OP_OUT; OP_IN]
   /\ 2 <= operand1 c)
  \/ (In (opcode_at c) [OP_ADD; OP_SUB]
      /\ (2 <= operand1 c \/ 2 <= operand2 c)).

(** A register selector and an instruction with its operands. *)
Inductive register := A | B.

Inductive instr :=
| NOP
| LDI (r : register) (imm : Z)
| MOV (r : register) (addr : Z)
| STR (r : register) (addr : Z)
| ADD (r1 r2 : register)
| SUB (r1 r2 : register)
| JMP (addr : Z)
| JZ (addr : Z)
| JNZ (addr : Z)
| OUT (r : register)
| IN (r : register)
| HLT.

Definition reg_name (r : register) : pystr :=
  match r with A => str "A" | B => str "B" end.

Definition reg_index (r : register) : Z :=
  match r with A => 0 | B => 1 end.

(** The two ways the assembler syntax writes a number. *)
Inductive notation := Decimal | Hexadecimal.

(** A byte value written in decimal, or in hexadecimal after [0x]. *)
Definition literal (n : notation) (z : Z) : pystr :=
  match n with
  | Decimal =>
      str (DecimalString.NilZero.string_of_uint (N.to_uint (Z.to_N z)))
  | Hexadecimal => str "0x" ++ hex z
  end.

(** The source line of an instruction: [MNEMONIC operand, operand]. *)
Definition render (n : notation) (i : instr) : pystr :=
  match i with
  | NOP => str "NOP"
  | LDI r imm => str "LDI " ++ reg_name r ++ str ", " ++ literal n imm
  | MOV r addr => str "MOV " ++ reg_name r ++ str ", " ++ literal n addr
  | STR r addr => str "STR " ++ reg_name r ++ str ", " ++ literal n addr
  | ADD r1 r2 => str "ADD " ++ reg_name r1 ++ str ", " ++ reg_name r2
  | SUB r1 r2 => str "SUB " ++ reg_name r1 ++ str ", " ++ reg_name r2
  | JMP addr => str "JMP " ++ literal n addr
  | JZ addr => str "JZ " ++ literal n addr
  | JNZ addr => str "JNZ " ++ literal n addr
  | OUT r => str "OUT " ++ reg_name r
  | IN r => str "IN " ++ reg_name r
  | HLT => str "HLT"
  end.

(** The operands are valid: every immediate and address is a byte. *)
Definition valid (i : instr) : Prop :=
  match i with
  | LDI _ z | MOV _ z | STR _ z | JMP z | JZ z | JNZ z => is_byte z
  | _ => True
  end.

(** The state section 4.3 of the specification speaks of. *)
Record observed := Observed {
  reg_A : Z;
  reg_B : Z;
  flag : bool;
  counter : Z
}.

Definition observe (c : CPU) : observed :=
  Observed (regv c 0) (regv c 1) (zero c) (pc c).

Definition read_reg (o : observed) (r : register) : Z :=
  match r with A => reg_A o | B => reg_B o end.

Definition write_reg (o : observed) (r : register) (v : Z) : observed :=
  match r with
  | A => Observed v (reg_B o) (flag o) (counter o)
  | B => Observed (reg_A o) v (flag o) (counter o)
  end.

Definition flag_from_A (o : observed) : observed :=
  Observed (reg_A o) (reg_B o) (reg_A o =? 0) (counter o).

Definition goto (o : observed) (a : Z) : observed :=
  Observed (reg_A o) (reg_B o) (flag o) a.

(** The transition rules of section 4.3, following the specification's
    words, for an instruction that lies at address 0: the state after one
    execute-step, from the state before it, the RAM and the character the
    input holds ([None] at the end of the input). *)
Definition predict (i : instr) (o : observed) (mem : Z -> Z)
    (input : option ascii) : observed :=
  match i with
  | NOP => goto o 1
  | LDI r imm => flag_from_A (write_reg (goto o 3) r imm)
  | MOV r addr => flag_from_A (write_reg (goto o 3) r (mem addr))
  | STR r addr => goto o 3
  | ADD r1 r2 =>
      flag_from_A
        (write_reg (goto o 3) A ((read_reg o r1 + read_reg o r2) mod 256))
  | SUB r1 r2 =>
      flag_from_A
        (write_reg (goto o 3) A ((read_reg o r1 - read_reg o r2) mod 256))
  | JMP addr => goto o addr
  | JZ addr => if flag o then goto o addr else goto o 2
  | JNZ addr => if flag o then goto o 2 else goto o addr
  | OUT r => goto o 2
  | IN r =>
      flag_from_A
        (write_reg (goto o 2) r
           (match input with Some ch => ord ch | None => 0 end))
  | HLT => goto o 1
  end.

(** Whether the step says to continue: only [HLT] halts. *)
Definition continues (i : instr) : bool :=
  match i with HLT => false | _ => true end.

(** The RAM section 4.3 predicts: only [STR] changes it. *)
Definition predict_mem (i : instr) (o : observed) (mem : Z -> Z) : Z -> Z :=
  match i with
  | STR r addr => fun a => if a =? addr then read_reg o r else mem a
  | _ => mem
  end.

(** The character section 4.3 predicts on the output: only [OUT] emits. *)
Definition predict_out (i : instr) (o : observed) : pystr :=
  match i with
  | OUT r => [chr (read_reg o r)]
  | _ => []
  end.

(** A quoted token: a quote character, a body without it, and the same
    quote character again. *)
Definition quoted (q : ascii) (body : pystr) : pystr := q :: body ++ [q].

(** [t] occurs in [s] as one piece. *)
Definition infix_of (t s : pystr) : Prop := exists a b, s = a ++ t ++ b.

(** The claim of the tokenizer on one line: some token holds the quoted
    piece whole. *)
Definition keeps_quoted (line : pystr) (q : ascii) (body : pystr) : Prop :=
  exists t, In t (Asm.tokenize line) /\ infix_of (quoted q body) t.

(** The quote character that is open after reading [s], if any, when [o]
    was open before it. *)
Fixpoint open_quote (o : option ascii) (s : pystr) : option ascii :=
  match s with
  | [] => o
  | c :: s' =>
      match o with
      | Some x => open_quote (if bool_decide (c = x) then None else o) s'
      | None => open_quote (if Asm.is_quote c then Some c else None) s'
      end
  end.

(** The program of the concrete scenario of the specification. *)
Definition hello : list pystr :=
  map str ["LDI A,65"; "OUT A"; "HLT"]%string.

(** A new CPU, with nothing to read and nothing written yet. *)
Definition fresh : world := World init [] [].

(** Load an image at address 0 and run it from there. *)
Definition load_and_run (image : list Z) (fuel : nat) : M bool :=
  bind (load_bin image 0) (fun _ => run 0 false fuel).

(** Load an image at address 0 and set the program counter there, as
    [run] does before its first step. *)
Definition load_at_0 (image : list Z) : M unit :=
  bind (load_bin image 0) (fun _ => modify (with_pc (0 mod RAM_SIZE))).

(** The RAM [load_bin] leaves: the stores of its loop from index [i] on. *)
Fixpoint stored (l : list Z) (addr i : Z) (data : list Z) : list Z :=
  match data with
  | [] => l
  | b :: rest =>
      stored (<[Z.to_nat ((addr + i) mod 256) := Z.land b 0xFF]> l)
             addr (i + 1) rest
  end.

(** The bytes of an instruction, by the table of section 4.1: the opcode
    and then the operands. *)
Definition encode (i : instr) : list Z :=
  match i with
  | NOP => [OP_NOP]
  | LDI r imm => [OP_LDI; reg_index r; imm]
  | MOV r addr => [OP_MOV; reg_index r; addr]
  | STR r addr => [OP_STR; reg_index r; addr]
  | ADD r1 r2 => [OP_ADD; reg_index r1; reg_index r2]
  | SUB r1 r2 => [OP_SUB; reg_index r1; reg_index r2]
  | JMP addr => [OP_JMP; addr]
  | JZ addr => [OP_JZ; addr]
  | JNZ addr => [OP_JNZ; addr]
  | OUT r => [OP_OUT; reg_index r]
  | IN r => [OP_IN; reg_index r]
  | HLT => [OP_HLT]
  end.

(** The one-line program of [i] assembles to the bytes of [i]. *)
Definition assembles (n : notation) (i : instr) : bool :=
  match Asm.assemble [render n i] with
  | Ok image => bool_decide (image = encode i)
  | Raise _ => false
  end.

(** A token that [parse_value] resolves through the label table: neither a
    character literal, nor a hexadecimal or decimal number. *)
Definition is_label_ref (token : pystr) : bool :=
  negb (Py.startswith token (str "'") && Py.endswith token (str "'")
        && (Z.of_nat (length token) =? 3))
  && negb (Py.startswith token (str "0x"))
  && negb (Py.isdigit token
           || (Py.startswith token (str "-") && Py.isdigit (tail token))).

(** The entries the first pass makes of [n] lines [NOP] from address [a]
    on. *)
Fixpoint nops (a : Z) (n : nat) : list Asm.entry :=
  match n with
  | O => []
  | S n' => (a, str "NOP", []) :: nops (a + 1) n'
  end.

(** A program whose label [far] stands after [n] one-byte instructions. *)
Definition far_jump (n : nat) : list pystr :=
  repeat (str "NOP") n ++ [str "far:"; str "JMP far"].

(** The characters of a string that are no separators. *)
Definition unseparated (s : pystr) : pystr :=
  List.filter (fun c => negb (Asm.is_sep c)) s.

(** A line the first pass skips at once: blank, or a comment. *)
Definition skipped (raw : pystr) : bool :=
  Py.eqs (Py.strip raw) [] || Py.startswith (Py.strip raw) (str ";").

(** What the scanner holds, without the separators. *)
Definition held (st : Asm.scanner) : pystr :=
  unseparated (concat (Asm.tokens st) ++ Asm.current st).

(** The size the first pass gave an entry, 0 if it gave none. *)
Definition entry_size (e : Asm.entry) : Z :=
  match Asm.size (snd (fst e)) (snd e) with
  | Ok n => n
  | Raise _ => 0
  end.

(** The sizes of a list of entries, added up. *)
Definition total_size (es : list Asm.entry) : Z :=
  fold_right (fun e acc => entry_size e + acc) 0 es.

(** What the first pass keeps true of its counter and its entries. *)
Definition counted (st : Asm.pass1_state) : Prop :=
  Asm.pc st = total_size (Asm.parsed st)
  /\ Forall (fun e => exists n, Asm.size (snd (fst e)) (snd e) = Ok n)
            (Asm.parsed st).

(** All the characters, to enumerate a character operand. *)
Definition all_chars : list ascii := map ascii_of_nat (seq 0 256).

(** An instruction line whose value operand is the character literal of
    [c]. *)
Definition ldi_char (r : register) (c : ascii) : pystr :=
  str "LDI " ++ reg_name r ++ str ", " ++ quoted "'"%char [c].

Definition jmp_char (c : ascii) : pystr :=
  str "JMP " ++ quoted "'"%char [c].

(** The one-line program [line] assembles to the bytes [bs]. *)
Definition assembles_to (line : pystr) (bs : list Z) : bool :=
  match Asm.assemble [line] with
  | Ok image => bool_decide (image = bs)
  | Raise _ => false
  end.

Definition char_operand_ok (c : ascii) : bool :=
  assembles_to (ldi_char A c) [OP_LDI; 0; ord c]
  && assembles_to (ldi_char B c) [OP_LDI; 1; ord c]
  && assembles_to (jmp_char c) [OP_JMP; ord c].

(** The number of operands the second pass reads of an instruction. *)
Definition arity (op : pystr) : nat :=
  if Asm.mem op ["LDI"; "MOV"; "STR"; "ADD"; "SUB"]%string then 2
  else if Asm.mem op ["JMP"; "JZ"; "JNZ"; "OUT"; "IN"]%string then 1
  else 0.

(** The instruction mnemonics, without the pseudo-instruction [DB]. *)
Definition instructions : list string :=
  ["LDI"; "MOV"; "STR"; "ADD"; "SUB"; "JMP"; "JZ"; "JNZ"; "OUT"; "IN";
   "NOP"; "HLT"]%string.

(** A program that jumps to the label [far] before and after it, [n]
    one-byte instructions standing between the first jump and the
    label. *)
Definition both_ways (n : nat) : list pystr :=
  str "JMP far" :: repeat (str "NOP") n ++ [str "far:"; str "JMP far"].

(** The step at the program counter is a jump that is taken. *)
Definition jump_taken (c : CPU) : bool :=
  (opcode_at c =? OP_JMP)
  || ((opcode_at c =? OP_JZ) && zero c)
  || ((opcode_at c =? OP_JNZ) && negb (zero c)).

(** The opcode table as a list of pairs. *)
Definition op_table : list (pystr * Z) :=
  [(str "NOP", OP_NOP); (str "LDI", OP_LDI); (str "MOV", OP_MOV);
   (str "STR", OP_STR); (str "ADD", OP_ADD); (str "SUB", OP_SUB);
   (str "JMP", OP_JMP); (str "JZ", OP_JZ); (str "JNZ", OP_JNZ);
   (str "OUT", OP_OUT); (str "IN", OP_IN); (str "HLT", OP_HLT)].

(** The characters of a decimal numeral. *)
Fixpoint digits_of (d : Decimal.uint) : pystr :=
  match d with
  | Decimal.Nil => []
  | Decimal.D0 d => "0"%char :: digits_of d
  | Decimal.D1 d => "1"%char :: digits_of d
  | Decimal.D2 d => "2"%char :: digits_of d
  | Decimal.D3 d => "3"%char :: digits_of d
  | Decimal.D4 d => "4"%char :: digits_of d
  | Decimal.D5 d => "5"%char :: digits_of d
  | Decimal.D6 d => "6"%char :: digits_of d
  | Decimal.D7 d => "7"%char :: digits_of d
  | Decimal.D8 d => "8"%char :: digits_of d
  | Decimal.D9 d => "9"%char :: digits_of d
  end.

(** A label line, and the name it binds. *)
Definition label_line (raw : pystr) : bool :=
  negb (skipped raw) && Py.endswith (Py.strip raw) (str ":").

Definition label_name (raw : pystr) : pystr :=
  Py.strip (Py.drop_last (Py.strip raw)).

(** The mnemonics the first pass knows. *)
Definition mnemonics : list string :=
  ["DB"; "LDI"; "MOV"; "STR"; "ADD"; "SUB"; "JMP"; "JZ"; "JNZ"; "OUT"; "IN";
   "NOP"; "HLT"]%string.

(** A line that is neither skipped nor a label, and its tokens. *)
Definition instruction_line (raw : pystr) (t : pystr) (args : list pystr)
  : Prop :=
  skipped raw = false /\
  Py.endswith (Py.strip raw) (str ":") = false /\
  Asm.tokenize (Py.strip raw) = t :: args.

(** The byte values, to enumerate the operands. *)
Definition bytes : list Z := map Z.of_nat (seq 0 256).

(** What a memory dump from [start] shows for its [k]-th cell: a row header
    in front of every sixteenth cell, then the cell's two hex digits. *)
Definition cell_text (c : CPU) (start : Z) (k : nat) : pystr :=
  let a := (start + Z.of_nat k) mod 256 in
  (if Z.of_nat k mod 16 =? 0
   then ["010"%char] ++ fmt_02X a ++ str ": " else [])
  ++ fmt_02X (peek c a) ++ str " ".

(** The text of a dump of [n] cells. *)
Definition dump_text (c : CPU) (start : Z) (n : nat) : pystr :=
  concat (map (cell_text c start) (seq 0 n)).

(** The line of the register dump. *)
Definition regs_line (c : CPU) : pystr :=
  str "PC: " ++ fmt_02X (pc c) ++ str "  A: " ++ fmt_02X (regv c 0)
  ++ str "  B: " ++ fmt_02X (regv c 1)
  ++ str "  Z:" ++ (if zero c then str "1" else str "0").

(** The state [run] starts its loop in. *)
Definition started (start : Z) (tr : bool) (c : CPU) : CPU :=
  with_running true (with_trace tr (with_pc (start mod 256) c)).


(** The character [IN] then [OUT] passes on: NUL at the end of input. *)
Definition echoed (w : world) : ascii :=
  match stdin w with
  | [] => chr 0
  | ch :: _ => ch
  end.

End Spec.

(** ** Properties *)

Import Spec.


(** *** The concrete scenario *)

(** C3: assembling [LDI A,65] / [OUT A] / [HLT] gives the bytes
    10 00 41 40 00 FF, and running that image from address 0 on a new CPU
    writes the single character [A] and halts (three steps are enough, and
    more fuel changes nothing) with register A = 65 and the zero flag
    false. *)
Theorem C3_hello_scenario (extra : nat) :
  Asm.assemble hello = Ok [0x10; 0x00; 0x41; 0x40; 0x00; 0xFF] /\
  exists w,
    load_and_run [0x10; 0x00; 0x41; 0x40; 0x00; 0xFF] (3 + extra) fresh
      = (Ok true, w) /\
    Emu.stdout w = str "A" /\
    regv (Emu.cpu w) Emu.REG_A = 65 /\
    Emu.zero (Emu.cpu w) = false /\
    Emu.running (Emu.cpu w) = false.
Proof.
  split; [vm_compute; reflexivity|].
  eexists. split.
  - unfold load_and_run, Emu.bind.
    replace (Emu.load_bin _ 0 fresh) with
      (Ok tt, Emu.World (Emu.with_ram
         ([0x10; 0x00; 0x41; 0x40; 0x00; 0xFF] ++ repeat 0 250) Emu.init) [] [])
      by (vm_compute; reflexivity).
    unfold Emu.run, Emu.bind. cbn [Emu.modify Emu.cpu Emu.stdin Emu.stdout].
    change (3 + extra)%nat with (S (S (S extra))).
    cbn [Emu.loop]. unfold Emu.bind.
    repeat match goal with
    | |- context [Emu.step ?w] =>
        let r := eval vm_compute in (Emu.step w) in
        change (Emu.step w) with r; cbv iota beta
    end.
    reflexivity.
  - vm_compute. repeat split; reflexivity.
Qed.

(** *** The size the first pass gives [DB] *)

(** C2, at the program [DB 1, 2] / [end:] / [JMP end]: the first pass
    advances the counter by 1 over the [DB] line, whose two operands the
    second pass emits as two bytes, so that the label [end] is bound to 1
    while its position in the emitted bytes is offset 2.  The same happens
    with a quoted string: [DB "AB"] counts as 1 and emits 2 bytes. *)
Theorem C2_db_size_failing_input :
  let lines := map str ["DB 1, 2"; "end:"; "JMP end"]%string in
  Asm.size (str "DB") [str "1"; str "2"] = Ok 1 /\
  Asm.size (str "DB") [quoted Asm.dquote (str "AB")] = Ok 1 /\
  Asm.assemble [str "DB " ++ quoted Asm.dquote (str "AB")] = Ok [65; 66] /\
  Asm.assemble (take 1 lines) = Ok [1; 2] /\
  (exists st, Asm.pass1 lines = Ok st /\
              Asm.labels st !! str "end" = Some 1) /\
  Asm.assemble lines = Ok [1; 2; OP_JMP; 1].
Proof.
  repeat split; try (vm_compute; reflexivity).
  eexists. split; [vm_compute; reflexivity|].
  vm_compute. reflexivity.
Qed.

(** *** An unknown opcode at address 255 *)

(** C4, at a state whose program counter is 255 and whose RAM holds the
    undefined opcode byte 01 there: the step halts and reports
    [Unknown opcode 01 at -1], while the byte was fetched at address 255,
    which the same format writes [FF]. *)
Theorem C4_unknown_opcode_at_255 :
  let c := Emu.with_pc 255 (Emu.with_ram (repeat 0 255 ++ [1]) Emu.init) in
  peek c (Emu.pc c) = 1 /\
  ~ In 1 opcodes /\
  Emu.step (Emu.World c [] [])
    = (Ok false,
       Emu.World (Emu.with_pc 0 c) []
         (str "Unknown opcode 01 at -1" ++ ["010"%char])) /\
  Emu.fmt_02X 255 = str "FF".
Proof.
  repeat split; try (vm_compute; reflexivity).
  vm_compute. intuition discriminate.
Qed.

(** *** Quotes and comments in [tokenize] *)

(** C8 fails when the quoted piece holds a semicolon: of [DB ';'] only
    [DB] and a lone quote are left. *)
Lemma C8_semicolon_in_quotes :
  Asm.tokenize (str "DB ';'") = [str "DB"; str "'"] /\
  ~ keeps_quoted (str "DB " ++ quoted "'"%char (str ";")) "'"%char (str ";").
Proof.
  split; [vm_compute; reflexivity|].
  intros (t & Hin & a & b & E).
  vm_compute in Hin.
  destruct Hin as [<-|[<-|[]]]; apply (f_equal (@length ascii)) in E;
    rewrite !length_app in E; simpl in E; lia.
Qed.

Section Tokenize.

Import Asm.

Lemma lstrip_app_nonspace pre c rest :
  Py.isspace c = false ->
  Py.lstrip (pre ++ c :: rest) = Py.lstrip pre ++ c :: rest.
Proof.
  intros Hc. induction pre as [|x pre IH]; simpl.
  - now rewrite Hc.
  - destruct (Py.isspace x); auto.
Qed.

Lemma rstrip_app_nonspace pre c rest :
  Py.isspace c = false ->
  Py.rstrip (pre ++ c :: rest) = pre ++ c :: Py.rstrip rest.
Proof.
  intros Hc. unfold Py.rstrip.
  rewrite rev_app_distr. simpl. rewrite <- app_assoc. simpl.
  rewrite lstrip_app_nonspace by assumption.
  rewrite rev_app_distr. simpl. rewrite rev_involutive.
  now rewrite <- app_assoc.
Qed.

Lemma before_app_notin x s t :
  ~ In x s -> Py.before x (s ++ t) = s ++ Py.before x t.
Proof.
  induction s as [|c s IH]; simpl; intros H; [reflexivity|].
  rewrite bool_decide_eq_false_2 by (intros ->; apply H; now left).
  f_equal. apply IH. intros ?; apply H; now right.
Qed.

Lemma before_app_in x s t :
  ~ In x s -> Py.before x (s ++ x :: t) = s.
Proof.
  intros H. rewrite before_app_notin by assumption. simpl.
  rewrite bool_decide_eq_true_2 by reflexivity. apply app_nil_r.
Qed.

Lemma quote_not_space q : is_quote q = true -> Py.isspace q = false.
Proof.
  unfold is_quote. intros H. apply orb_true_iff in H.
  destruct H as [H|H]; apply bool_decide_eq_true_1 in H; subst; reflexivity.
Qed.

Lemma quote_not_semicolon q : is_quote q = true -> q <> ";"%char.
Proof. intros H ->. discriminate H. Qed.

Lemma space_not_quote c : Py.isspace c = true -> is_quote c = false.
Proof.
  intros H. destruct (is_quote c) eqn:E; [|reflexivity].
  apply quote_not_space in E. congruence.
Qed.

Lemma open_quote_lstrip s :
  open_quote None (Py.lstrip s) = open_quote None s.
Proof.
  induction s as [|c s IH]; simpl; [reflexivity|].
  destruct (Py.isspace c) eqn:E; [|reflexivity].
  now rewrite (space_not_quote _ E).
Qed.

(** The scanner and [open_quote] agree on what is open. *)
Definition agrees (st : scanner) (o : option ascii) : Prop :=
  match o with
  | None => in_quote st = false
  | Some x => in_quote st = true /\ quote_char st = [x]
  end.

Lemma scan_agrees s : forall st o,
  agrees st o -> agrees (fold_left scan s st) (open_quote o s).
Proof.
  induction s as [|c s IH]; intros st o H; simpl; [exact H|].
  destruct o as [x|]; apply IH; unfold scan; simpl in H.
  - destruct H as [-> Hq]. rewrite Hq. unfold Py.eqs. simpl.
    destruct (bool_decide (c = x)) eqn:E.
    + apply bool_decide_eq_true_1 in E. subst.
      rewrite bool_decide_eq_true_2 by reflexivity. reflexivity.
    + apply bool_decide_eq_false_1 in E.
      rewrite bool_decide_eq_false_2 by congruence. simpl. auto.
  - rewrite H. destruct (is_quote c); simpl; [auto|].
    destruct (is_sep c); [destruct (current st)|]; simpl; auto.
Qed.

(** Inside a quote the characters other than the quote character are
    appended to the current token, and nothing else changes. *)
Lemma scan_body body : forall st q,
  in_quote st = true -> quote_char st = [q] -> ~ In q body ->
  fold_left scan body st
    = Scanner (tokens st) (current st ++ body) true [q].
Proof.
  induction body as [|c body IH]; intros st q Hin Hq Hno; simpl.
  - rewrite app_nil_r. destruct st; simpl in *. now subst.
  - rewrite (IH _ q).
    + unfold scan. rewrite Hin. simpl. now rewrite <- app_assoc.
    + unfold scan. rewrite Hin, Hq. simpl. unfold Py.eqs.
      rewrite bool_decide_eq_false_2; [reflexivity|].
      intros [= ->]. apply Hno. now left.
    + unfold scan. now rewrite Hin.
    + intros ?. apply Hno. now right.
Qed.

(** A quoted piece met outside quotes goes whole into the current
    token. *)
Lemma scan_quoted q body st :
  is_quote q = true -> in_quote st = false -> ~ In q body ->
  fold_left scan (quoted q body) st
    = Scanner (tokens st) (current st ++ quoted q body) false [q].
Proof.
  intros Hq Hout Hno. unfold quoted. simpl.
  rewrite fold_left_app.
  rewrite (scan_body body _ q); try assumption.
  - simpl. unfold scan at 1. simpl. unfold Py.eqs.
    rewrite bool_decide_eq_true_2 by reflexivity.
    unfold scan. rewrite Hout, Hq. simpl.
    now rewrite <- !app_assoc.
  - unfold scan. now rewrite Hout, Hq.
  - unfold scan. now rewrite Hout, Hq.
Qed.

(** Tokens once appended stay where they are. *)
Lemma scan_keeps_tokens s : forall st,
  exists more, flush (fold_left scan s st) = tokens st ++ more.
Proof.
  induction s as [|c s IH]; intros st; simpl.
  - unfold flush. destruct (current st); eexists;
      [symmetry; apply app_nil_r | reflexivity].
  - destruct (IH (scan st c)) as (more & E). rewrite E. unfold scan.
    destruct (in_quote st);
      [|destruct (is_quote c);
        [|destruct (is_sep c); [destruct (current st)|]]];
      simpl; rewrite <- ?app_assoc; eexists; reflexivity.
Qed.

(** A token that has begun is never lost: it ends up whole at the front
    of one of the tokens. *)
Lemma scan_keeps_current s : forall st,
  current st <> [] ->
  exists x more,
    flush (fold_left scan s st) = tokens st ++ (current st ++ x) :: more.
Proof.
  induction s as [|c s IH]; intros st Hne; simpl.
  - exists [], []. unfold flush. destruct (current st) eqn:E; [congruence|].
    now rewrite app_nil_r.
  - assert (Hgrow : forall a, current st ++ a <> []).
    { intros a Ha. apply app_eq_nil in Ha. tauto. }
    unfold scan.
    destruct (in_quote st) eqn:Hin;
      [|destruct (is_quote c); [|destruct (is_sep c) eqn:Hsep]].
    1,2,4:
      (edestruct IH as (x & more & E);
       [|rewrite E; simpl; exists (c :: x), more;
         now rewrite <- app_assoc]; simpl; apply Hgrow).
    destruct (current st) as [|c0 cur] eqn:Hcur; [congruence|].
    match goal with
    | |- context [fold_left _ s ?st'] =>
        destruct (scan_keeps_tokens s st') as (more & E)
    end.
    fold scan in E |- *. rewrite E. simpl.
    exists [], more. now rewrite <- app_assoc, app_nil_r.
Qed.

End Tokenize.

(** C8, as the code has it: the part of a line from the first semicolon on
    is dropped wherever that semicolon stands, and in what is left a piece
    enclosed in ['...'] or ["..."] that begins outside any quote is kept
    whole inside a single token, with its white space and commas.  So a
    quoted piece with no semicolon in it or before it is never split or
    shortened. *)
Theorem C8_tokenize_quotes (pre body post : pystr) (q : ascii) :
  Asm.is_quote q = true ->
  open_quote None pre = None ->
  ~ In ";"%char pre ->
  ~ In q body ->
  ~ In ";"%char body ->
  keeps_quoted (pre ++ quoted q body ++ post) q body /\
  forall code comment,
    ~ In ";"%char code ->
    Asm.tokenize (code ++ ";"%char :: comment) = Asm.tokenize code.
Proof.
  intros Hq Hpre Hsc_pre Hbody Hsc_body. split.
  - unfold keeps_quoted, Asm.tokenize.
    pose proof (quote_not_space _ Hq) as Hsp.
    pose proof (quote_not_semicolon _ Hq) as Hsemi.
    set (post' := Py.before ";"%char post).
    assert (Hb : Py.before ";"%char (pre ++ quoted q body ++ post)
                 = pre ++ quoted q body ++ post').
    { rewrite !app_assoc. rewrite before_app_notin; [reflexivity|].
      unfold quoted. rewrite in_app_iff. simpl. rewrite in_app_iff. simpl.
      intuition congruence. }
    rewrite Hb.
    assert (Hs : Py.strip (pre ++ quoted q body ++ post')
                 = Py.lstrip pre ++ quoted q body ++ Py.rstrip post').
    { unfold Py.strip, quoted. simpl.
      rewrite lstrip_app_nonspace by assumption.
      replace (Py.lstrip pre ++ q :: (body ++ [q]) ++ post')
        with ((Py.lstrip pre ++ q :: body) ++ q :: post')
        by (rewrite <- !app_assoc; reflexivity).
      rewrite rstrip_app_nonspace by assumption.
      rewrite <- !app_assoc. reflexivity. }
    rewrite Hs.
    destruct (Py.lstrip pre ++ quoted q body ++ Py.rstrip post') eqn:E.
    { apply app_eq_nil in E. destruct E as [_ E]. discriminate E. }
    rewrite <- E. clear E.
    rewrite !fold_left_app.
    set (st1 := fold_left Asm.scan (Py.lstrip pre) Asm.scan_start).
    assert (Hout : Asm.in_quote st1 = false).
    { pose proof (scan_agrees (Py.lstrip pre) Asm.scan_start None eq_refl) as H.
      rewrite open_quote_lstrip, Hpre in H. exact H. }
    rewrite scan_quoted by assumption.
    edestruct (scan_keeps_current (Py.rstrip post')) as (x & more & Ht);
      [|rewrite Ht].
    + simpl. intros Hnil. apply app_eq_nil in Hnil.
      destruct Hnil as [_ Hnil]. discriminate Hnil.
    + simpl. eexists. split.
      * apply in_or_app. right. left. reflexivity.
      * exists (Asm.current st1), x. now rewrite <- !app_assoc.
  - intros code comment Hcode. unfold Asm.tokenize.
    rewrite before_app_in by assumption.
    replace (Py.before ";"%char code) with code; [reflexivity|].
    rewrite <- (app_nil_r code) at 2.
    rewrite before_app_notin by assumption. simpl. now rewrite app_nil_r.
Qed.

(** The theorem at the line [DB "a, b" ; data]. *)
Lemma C8_tokenize_quotes_witness :
  keeps_quoted
    (str "DB " ++ quoted Asm.dquote (str "a, b") ++ str " ; data")
    Asm.dquote (str "a, b").
Proof.
  apply (C8_tokenize_quotes (str "DB ") (str "a, b") (str " ; data")
           Asm.dquote).
  - reflexivity.
  - reflexivity.
  - vm_compute. intuition discriminate.
  - vm_compute. intuition discriminate.
  - vm_compute. intuition discriminate.
Defined.

(** *** Reading and writing the RAM and the register file *)

Section Primitives.

Import Emu.
Local Open Scope emu_scope.

Lemma land_byte z : is_byte z -> Z.land z 0xFF = z.
Proof.
  intros H. change 0xFF with (Z.ones 8).
  rewrite Z.land_ones by lia. apply Z.mod_small. exact H.
Qed.

Lemma land_is_byte z : is_byte (Z.land z 0xFF).
Proof.
  change 0xFF with (Z.ones 8). rewrite Z.land_ones by lia.
  apply Z.mod_pos_bound. lia.
Qed.

Lemma land_mod z : Z.land z 0xFF = z mod 256.
Proof. change 0xFF with (Z.ones 8). now rewrite Z.land_ones by lia. Qed.

Lemma mod_is_byte z : is_byte (z mod 256).
Proof. apply Z.mod_pos_bound. lia. Qed.

Lemma mod_succ p n : ((p + n) mod 256 + 1) mod 256 = (p + (n + 1)) mod 256.
Proof. rewrite Zplus_mod_idemp_l. f_equal. lia. Qed.

Lemma get_in_range {X} (l : list X) i n :
  length l = n -> 0 <= i < Z.of_nat n ->
  Py.get l i = match l !! Z.to_nat i with
               | Some a => Ok a
               | None => Raise IndexError
               end.
Proof.
  intros Hl Hi. unfold Py.get. rewrite Hl.
  destruct (Z.ltb_spec i 0); [lia|].
  destruct (Z.leb_spec 0 i); [|lia].
  destruct (Z.ltb_spec i (Z.of_nat n)); [|lia]. reflexivity.
Qed.

Lemma get_above {X} (l : list X) i n :
  length l = n -> Z.of_nat n <= i -> Py.get l i = Raise IndexError.
Proof.
  intros Hl Hi. unfold Py.get. rewrite Hl.
  destruct (Z.ltb_spec i 0); [lia|].
  destruct (Z.ltb_spec i (Z.of_nat n)); [lia|].
  now rewrite andb_false_r.
Qed.

Lemma set_in_range {X} (l : list X) i n a :
  length l = n -> 0 <= i < Z.of_nat n ->
  Py.set l i a = Ok (<[Z.to_nat i := a]> l).
Proof.
  intros Hl Hi. unfold Py.set. rewrite Hl.
  destruct (Z.ltb_spec i 0); [lia|].
  destruct (Z.leb_spec 0 i); [|lia].
  destruct (Z.ltb_spec i (Z.of_nat n)); [|lia]. reflexivity.
Qed.

Lemma set_above {X} (l : list X) i n a :
  length l = n -> Z.of_nat n <= i -> Py.set l i a = Raise IndexError.
Proof.
  intros Hl Hi. unfold Py.set. rewrite Hl.
  destruct (Z.ltb_spec i 0); [lia|].
  destruct (Z.ltb_spec i (Z.of_nat n)); [lia|].
  now rewrite andb_false_r.
Qed.

(** What [Py.get] returns is an element of the list, whatever the
    index. *)
Lemma get_elem {X} (l : list X) i a : Py.get l i = Ok a -> In a l.
Proof.
  unfold Py.get.
  destruct (_ && _); [|discriminate].
  destruct (l !! _) eqn:E; [|discriminate].
  intros [= <-]. apply list_elem_of_In. eapply list_elem_of_lookup_2, E.
Qed.

Lemma lookup_default (l : list Z) (n : nat) :
  (n < length l)%nat -> l !! n = Some (default 0 (l !! n)).
Proof.
  intros H. destruct (lookup_lt_is_Some_2 l n H) as [x ->]. reflexivity.
Qed.

Lemma peek_get c i :
  length (ram c) = 256%nat -> is_byte i -> Py.get (ram c) i = Ok (peek c i).
Proof.
  intros Hl Hi. rewrite (get_in_range _ _ 256%nat) by (auto; unfold is_byte in Hi; lia).
  unfold peek. rewrite lookup_default; [reflexivity|].
  unfold is_byte in Hi. lia.
Qed.

Lemma regv_get c r :
  length (reg c) = 2%nat -> 0 <= r < 2 -> Py.get (reg c) r = Ok (regv c r).
Proof.
  intros Hl Hi. rewrite (get_in_range _ _ 2%nat) by (auto; lia).
  unfold regv. rewrite lookup_default; [reflexivity|]. lia.
Qed.

Lemma peek_is_byte c i : Forall is_byte (ram c) -> is_byte (peek c i).
Proof.
  intros H. unfold peek. destruct (ram c !! Z.to_nat i) eqn:E; simpl.
  - rewrite Forall_forall in H. apply H.
    eapply list_elem_of_lookup_2, E.
  - unfold is_byte. lia.
Qed.

Lemma regv_is_byte c r : Forall is_byte (reg c) -> is_byte (regv c r).
Proof.
  intros H. unfold regv. destruct (reg c !! Z.to_nat r) eqn:E; simpl.
  - rewrite Forall_forall in H. apply H.
    eapply list_elem_of_lookup_2, E.
  - unfold is_byte. lia.
Qed.

(** How [bind] runs each primitive. *)
Context {X : Type} (k : unit -> M X).

Lemma bind_gets {Y} (f : CPU -> Y) (g : Y -> M X) w :
  bind (gets f) g w = g (f (cpu w)) w.
Proof. reflexivity. Qed.

Lemma bind_modify f w :
  bind (modify f) k w = k tt (World (f (cpu w)) (stdin w) (stdout w)).
Proof. reflexivity. Qed.

Lemma bind_ret {Y} (a : Y) (g : Y -> M X) w : bind (ret a) g w = g a w.
Proof. reflexivity. Qed.

Lemma bind_write s w :
  bind (write s) k w = k tt (World (cpu w) (stdin w) (stdout w ++ s)).
Proof. reflexivity. Qed.

Lemma bind_ram_get i (g : Z -> M X) w :
  length (ram (cpu w)) = 256%nat -> is_byte i ->
  bind (ram_get i) g w = g (peek (cpu w) i) w.
Proof.
  intros Hl Hi. unfold ram_get, bind, gets, lift.
  now rewrite peek_get.
Qed.

Lemma bind_fetch (g : Z -> M X) w :
  length (ram (cpu w)) = 256%nat -> is_byte (pc (cpu w)) ->
  bind fetch g w
    = g (peek (cpu w) (pc (cpu w)))
        (World (with_pc ((pc (cpu w) + 1) mod 256) (cpu w))
               (stdin w) (stdout w)).
Proof.
  intros Hl Hi. unfold fetch, ram_get, bind, gets, lift, modify, ret.
  now rewrite peek_get.
Qed.

Lemma bind_reg_get r (g : Z -> M X) w :
  length (reg (cpu w)) = 2%nat -> 0 <= r < 2 ->
  bind (reg_get r) g w = g (regv (cpu w) r) w.
Proof.
  intros Hl Hi. unfold reg_get, bind, gets, lift.
  now rewrite regv_get.
Qed.

Lemma bind_reg_get_above r (g : Z -> M X) w :
  length (reg (cpu w)) = 2%nat -> 2 <= r ->
  bind (reg_get r) g w = (Raise IndexError, w).
Proof.
  intros Hl Hi. unfold reg_get, bind, gets, lift.
  now rewrite (get_above _ _ 2%nat) by (auto; lia).
Qed.

Lemma bind_reg_set r v w :
  length (reg (cpu w)) = 2%nat -> 0 <= r < 2 ->
  bind (reg_set r v) k w
    = k tt (World (with_reg (<[Z.to_nat r := v]> (reg (cpu w))) (cpu w))
                  (stdin w) (stdout w)).
Proof.
  intros Hl Hi. unfold reg_set, bind, gets, lift, modify.
  now rewrite (set_in_range _ _ 2%nat) by (auto; lia).
Qed.

Lemma bind_reg_set_above r v w :
  length (reg (cpu w)) = 2%nat -> 2 <= r ->
  bind (reg_set r v) k w = (Raise IndexError, w).
Proof.
  intros Hl Hi. unfold reg_set, bind, gets, lift.
  now rewrite (set_above _ _ 2%nat) by (auto; lia).
Qed.

Lemma bind_ram_set i v w :
  length (ram (cpu w)) = 256%nat -> is_byte i ->
  bind (ram_set i v) k w
    = k tt (World (with_ram (<[Z.to_nat i := v]> (ram (cpu w))) (cpu w))
                  (stdin w) (stdout w)).
Proof.
  intros Hl Hi. unfold ram_set, bind, gets, lift, modify.
  now rewrite (set_in_range _ _ 256%nat) by (auto; unfold is_byte in Hi; lia).
Qed.

Lemma bind_set_zero w :
  length (reg (cpu w)) = 2%nat ->
  bind set_zero_from_A k w
    = k tt (World (with_zero (regv (cpu w) 0 =? 0) (cpu w))
                  (stdin w) (stdout w)).
Proof.
  intros Hl. unfold set_zero_from_A, reg_get, bind, gets, lift, modify, REG_A.
  now rewrite regv_get by (auto; lia).
Qed.

End Primitives.

(** *** One step, instruction by instruction *)

Section Step.

Import Emu.
Local Open Scope emu_scope.

Lemma bind_assoc {X Y V} (m : M X) (f : X -> M Y) (g : Y -> M V) w :
  bind (bind m f) g w = bind m (fun a => bind (f a) g) w.
Proof. unfold bind. destruct (m w) as [[a|e] w']; reflexivity. Qed.

Lemma bind_read1 {X} (g : pystr -> M X) w :
  bind read1 g w
    = g (match stdin w with [] => [] | ch :: _ => [ch] end)
        (World (cpu w) (tail (stdin w)) (stdout w)).
Proof.
  unfold bind, read1. destruct w as [c i o]. simpl.
  destruct i; reflexivity.
Qed.

Lemma bind_lift_ok {X Y} (a : X) (g : X -> M Y) w :
  bind (lift (Ok a)) g w = g a w.
Proof. reflexivity. Qed.

Lemma mod_succ1 p : ((p + 1) mod 256 + 1) mod 256 = (p + 2) mod 256.
Proof. apply (mod_succ p 1). Qed.

Lemma mod_succ2 p : ((p + 2) mod 256 + 1) mod 256 = (p + 3) mod 256.
Proof. apply (mod_succ p 2). Qed.

Lemma peek_mod c i : Forall is_byte (ram c) -> peek c i mod 256 = peek c i.
Proof. intros H. apply Z.mod_small, peek_is_byte, H. Qed.

Lemma ord_is_byte ch : is_byte (ord ch).
Proof.
  unfold is_byte, ord. pose proof (N_ascii_bounded ch). lia.
Qed.

Create HintDb bytes.
Hint Resolve mod_is_byte land_is_byte peek_is_byte regv_is_byte
  ord_is_byte : bytes.

(** Projections of the states the step builds. *)
Ltac proj :=
  cbn [cpu stdin stdout ram reg pc zero running trace
       with_ram with_reg with_pc with_zero with_running with_trace];
  repeat match goal with
  | |- context [peek (with_pc ?x ?c) ?i] =>
      change (peek (with_pc x c) i) with (peek c i)
  | |- context [regv (with_pc ?x ?c) ?i] =>
      change (regv (with_pc x c) i) with (regv c i)
  end.

Ltac side :=
  proj;
  first [ assumption
        | solve [auto with bytes]
        | rewrite length_insert; assumption
        | unfold is_byte in *; lia ].

(** Run the primitive at the head of the computation. *)
Ltac exec1 w :=
  first
    [ rewrite bind_gets
    | rewrite bind_modify
    | rewrite bind_ret
    | rewrite bind_write
    | rewrite bind_read1
    | rewrite bind_lift_ok
    | rewrite bind_assoc
    | rewrite bind_fetch by side
    | rewrite bind_ram_get by side
    | rewrite bind_reg_get by side
    | rewrite bind_reg_get_above by side
    | rewrite bind_reg_set by side
    | rewrite bind_reg_set_above by side
    | rewrite bind_ram_set by side
    | rewrite bind_set_zero by side ];
  proj;
  rewrite ?(mod_succ1 (pc (cpu w))), ?(mod_succ2 (pc (cpu w))).

(** Decide the comparisons of the opcode with the table. *)
Ltac dispatch :=
  repeat match goal with
  | |- context [?a =? ?b] =>
      let v := eval vm_compute in (a =? b) in
      match v with
      | true => change (a =? b) with true
      | false => change (a =? b) with false
      end; cbv iota
  end.

(** The fetch of the opcode, the trace line and the first advance of the
    counter. *)
Ltac begin w :=
  unfold step, print, RAM_SIZE, REG_A, trace_out;
  rewrite bind_gets, bind_ram_get by side;
  rewrite bind_gets;
  destruct (trace (cpu w));
  repeat exec1 w.

(** Bring the state reached to the form of the statement. *)
Ltac finish w :=
  unfold ret, flag_of_A, next_input;
  rewrite ?land_byte by side;
  rewrite ?land_mod;
  rewrite ?peek_mod by side;
  reflexivity.

Ltac instruction w Hop :=
  begin w; (rewrite Hop; dispatch; repeat exec1 w; finish w).

Section Instruction.

Context (w : world).
Let c := cpu w.
Let p := pc c.
Let b1 := peek c ((p + 1) mod 256).
Let b2 := peek c ((p + 2) mod 256).
Context (Hwf : wf c).

Let next (n : Z) : CPU := with_pc ((p + n) mod 256) c.

Lemma step_NOP :
  peek c p = OP_NOP ->
  step w = (Ok true, World (next 1) (stdin w) (trace_out w)).
Proof.
  intros Hop. destruct Hwf as [Hl Hg Hp Hram Hreg].
  subst next b1 b2 p c. instruction w Hop.
Qed.

Lemma step_HLT :
  peek c p = OP_HLT ->
  step w = (Ok false, World (next 1) (stdin w) (trace_out w)).
Proof.
  intros Hop. destruct Hwf as [Hl Hg Hp Hram Hreg].
  subst next b1 b2 p c. instruction w Hop.
Qed.

Lemma step_LDI :
  peek c p = OP_LDI -> 0 <= b1 < 2 ->
  step w = (Ok true,
            World (flag_of_A
                     (with_reg (<[Z.to_nat b1 := b2]> (reg c)) (next 3)))
                  (stdin w) (trace_out w)).
Proof.
  intros Hop Hr. destruct Hwf as [Hl Hg Hp Hram Hreg].
  subst next b1 b2 p c. instruction w Hop.
Qed.

Lemma step_MOV :
  peek c p = OP_MOV -> 0 <= b1 < 2 ->
  step w = (Ok true,
            World (flag_of_A
                     (with_reg (<[Z.to_nat b1 := peek c b2]> (reg c))
                        (next 3)))
                  (stdin w) (trace_out w)).
Proof.
  intros Hop Hr. destruct Hwf as [Hl Hg Hp Hram Hreg].
  subst next b1 b2 p c. instruction w Hop.
Qed.

Lemma step_STR :
  peek c p = OP_STR -> 0 <= b1 < 2 ->
  step w = (Ok true,
            World (with_ram (<[Z.to_nat b2 := regv c b1]> (ram c))
                     (next 3))
                  (stdin w) (trace_out w)).
Proof.
  intros Hop Hr. destruct Hwf as [Hl Hg Hp Hram Hreg].
  subst next b1 b2 p c. instruction w Hop.
Qed.

Lemma step_ADD :
  peek c p = OP_ADD -> 0 <= b1 < 2 -> 0 <= b2 < 2 ->
  step w = (Ok true,
            World (flag_of_A
                     (with_reg
                        (<[0%nat := (regv c b1 + regv c b2) mod 256]>
                           (reg c))
                        (next 3)))
                  (stdin w) (trace_out w)).
Proof.
  intros Hop Hr1 Hr2. destruct Hwf as [Hl Hg Hp Hram Hreg].
  subst next b1 b2 p c. instruction w Hop.
Qed.

Lemma step_SUB :
  peek c p = OP_SUB -> 0 <= b1 < 2 -> 0 <= b2 < 2 ->
  step w = (Ok true,
            World (flag_of_A
                     (with_reg
                        (<[0%nat := (regv c b1 - regv c b2) mod 256]>
                           (reg c))
                        (next 3)))
                  (stdin w) (trace_out w)).
Proof.
  intros Hop Hr1 Hr2. destruct Hwf as [Hl Hg Hp Hram Hreg].
  subst next b1 b2 p c. instruction w Hop.
Qed.

Lemma step_JMP :
  peek c p = OP_JMP ->
  step w = (Ok true, World (with_pc b1 c) (stdin w) (trace_out w)).
Proof.
  intros Hop. destruct Hwf as [Hl Hg Hp Hram Hreg].
  subst next b1 b2 p c. instruction w Hop.
Qed.

Lemma step_JZ :
  peek c p = OP_JZ ->
  step w = (Ok true,
            World (if zero c then with_pc b1 c else next 2)
                  (stdin w) (trace_out w)).
Proof.
  intros Hop. destruct Hwf as [Hl Hg Hp Hram Hreg].
  subst next b1 b2 p c.
  begin w; rewrite Hop; dispatch; repeat exec1 w;
    destruct (zero (cpu w)); cbn [negb]; repeat exec1 w; finish w.
Qed.

Lemma step_JNZ :
  peek c p = OP_JNZ ->
  step w = (Ok true,
            World (if zero c then next 2 else with_pc b1 c)
                  (stdin w) (trace_out w)).
Proof.
  intros Hop. destruct Hwf as [Hl Hg Hp Hram Hreg].
  subst next b1 b2 p c.
  begin w; rewrite Hop; dispatch; repeat exec1 w;
    destruct (zero (cpu w)); cbn [negb]; repeat exec1 w; finish w.
Qed.

Lemma step_OUT :
  peek c p = OP_OUT -> 0 <= b1 < 2 ->
  step w = (Ok true,
            World (next 2) (stdin w) (trace_out w ++ [chr (regv c b1)])).
Proof.
  intros Hop Hr. destruct Hwf as [Hl Hg Hp Hram Hreg].
  subst next b1 b2 p c. instruction w Hop.
Qed.

Lemma step_IN :
  peek c p = OP_IN -> 0 <= b1 < 2 ->
  step w = (Ok true,
            World (flag_of_A
                     (with_reg (<[Z.to_nat b1 := next_input w]> (reg c))
                        (next 2)))
                  (tail (stdin w)) (trace_out w)).
Proof.
  intros Hop Hr. destruct Hwf as [Hl Hg Hp Hram Hreg].
  subst next b1 b2 p c.
  begin w; rewrite Hop; dispatch; repeat exec1 w;
    unfold next_input; destruct (stdin w) as [|ch rest];
    match goal with
    | |- context [Py.eqs [?x] []] =>
        change (Py.eqs [x] []) with false;
        change (Py.get [x] 0) with (Ok x)
    | _ => change (Py.eqs [] []) with true
    end;
    cbv iota; repeat exec1 w; cbn [tail]; finish w.
Qed.

(** A register operand byte above 1: the access to the two-element
    register file raises. *)
Lemma step_LDI_above :
  peek c p = OP_LDI -> 2 <= b1 ->
  step w = (Raise IndexError, World (next 3) (stdin w) (trace_out w)).
Proof.
  intros Hop Hr. destruct Hwf as [Hl Hg Hp Hram Hreg].
  subst next b1 b2 p c. instruction w Hop.
Qed.

Lemma step_MOV_above :
  peek c p = OP_MOV -> 2 <= b1 ->
  step w = (Raise IndexError, World (next 3) (stdin w) (trace_out w)).
Proof.
  intros Hop Hr. destruct Hwf as [Hl Hg Hp Hram Hreg].
  subst next b1 b2 p c. instruction w Hop.
Qed.

Lemma step_STR_above :
  peek c p = OP_STR -> 2 <= b1 ->
  step w = (Raise IndexError, World (next 3) (stdin w) (trace_out w)).
Proof.
  intros Hop Hr. destruct Hwf as [Hl Hg Hp Hram Hreg].
  subst next b1 b2 p c. instruction w Hop.
Qed.

Lemma step_ADD_above :
  peek c p = OP_ADD -> 2 <= b1 \/ 2 <= b2 ->
  step w = (Raise IndexError, World (next 3) (stdin w) (trace_out w)).
Proof.
  intros Hop Hr. destruct Hwf as [Hl Hg Hp Hram Hreg].
  pose proof (peek_is_byte c ((p + 1) mod 256) Hram) as H1.
  subst next b1 b2 p c.
  destruct (Z_lt_le_dec (peek (cpu w) ((pc (cpu w) + 1) mod 256)) 2);
    [destruct Hr as [Hr|Hr]; [unfold is_byte in H1; lia|]|];
    instruction w Hop.
Qed.

Lemma step_SUB_above :
  peek c p = OP_SUB -> 2 <= b1 \/ 2 <= b2 ->
  step w = (Raise IndexError, World (next 3) (stdin w) (trace_out w)).
Proof.
  intros Hop Hr. destruct Hwf as [Hl Hg Hp Hram Hreg].
  pose proof (peek_is_byte c ((p + 1) mod 256) Hram) as H1.
  subst next b1 b2 p c.
  destruct (Z_lt_le_dec (peek (cpu w) ((pc (cpu w) + 1) mod 256)) 2);
    [destruct Hr as [Hr|Hr]; [unfold is_byte in H1; lia|]|];
    instruction w Hop.
Qed.

Lemma step_OUT_above :
  peek c p = OP_OUT -> 2 <= b1 ->
  step w = (Raise IndexError, World (next 2) (stdin w) (trace_out w)).
Proof.
  intros Hop Hr. destruct Hwf as [Hl Hg Hp Hram Hreg].
  subst next b1 b2 p c. instruction w Hop.
Qed.

(** [IN] has read its character when the store into the register file
    raises. *)
Lemma step_IN_above :
  peek c p = OP_IN -> 2 <= b1 ->
  step w = (Raise IndexError,
            World (next 2) (tail (stdin w)) (trace_out w)).
Proof.
  intros Hop Hr. destruct Hwf as [Hl Hg Hp Hram Hreg].
  subst next b1 b2 p c.
  begin w; rewrite Hop; dispatch; repeat exec1 w;
    destruct (stdin w) as [|ch rest];
    match goal with
    | |- context [Py.eqs [?x] []] =>
        change (Py.eqs [x] []) with false;
        change (Py.get [x] 0) with (Ok x)
    | _ => change (Py.eqs [] []) with true
    end;
    cbv iota; repeat exec1 w; cbn [tail]; finish w.
Qed.

(** A byte that is no opcode: the step halts and prints the counter it
    has already advanced, minus one. *)
Lemma step_unknown :
  ~ In (peek c p) opcodes ->
  step w = (Ok false,
            World (next 1) (stdin w)
              (trace_out w
               ++ (str "Unknown opcode " ++ fmt_02X (peek c p)
                   ++ str " at " ++ fmt_02X ((p + 1) mod 256 - 1))
               ++ ["010"%char])).
Proof.
  intros Hun. destruct Hwf as [Hl Hg Hp Hram Hreg].
  subst next b1 b2 p c.
  begin w;
    repeat match goal with
    | |- context [?a =? ?b] =>
        rewrite (proj2 (Z.eqb_neq a b))
          by (intros E; apply Hun; rewrite E; unfold opcodes; simpl; tauto)
    end;
    repeat exec1 w; finish w.
Qed.

End Instruction.

End Step.

(** *** The data model is kept *)

Section Invariant.

Import Emu.

Lemma wf_with_pc c x : wf c -> is_byte x -> wf (with_pc x c).
Proof. intros [] ?. constructor; assumption. Qed.

Lemma wf_with_zero c b : wf c -> wf (with_zero b c).
Proof. intros []. constructor; assumption. Qed.

Lemma wf_flag_of_A c : wf c -> wf (flag_of_A c).
Proof. apply wf_with_zero. Qed.

Lemma wf_reg_insert c c0 i v :
  wf c -> wf c0 -> is_byte v -> wf (with_reg (<[i := v]> (reg c0)) c).
Proof.
  intros [] [] ?. constructor; simpl; try assumption.
  - now rewrite length_insert.
  - now apply Forall_insert.
Qed.

Lemma wf_ram_insert c c0 i v :
  wf c -> wf c0 -> is_byte v -> wf (with_ram (<[i := v]> (ram c0)) c).
Proof.
  intros [] [] ?. constructor; simpl; try assumption.
  - now rewrite length_insert.
  - now apply Forall_insert.
Qed.

Lemma wf_peek c i : wf c -> is_byte (peek c i).
Proof. intros []. now apply peek_is_byte. Qed.

Lemma wf_regv c i : wf c -> is_byte (regv c i).
Proof. intros []. now apply regv_is_byte. Qed.

Lemma next_input_is_byte w : is_byte (next_input w).
Proof.
  unfold next_input. destruct (stdin w); [unfold is_byte; lia|].
  apply ord_is_byte.
Qed.

Lemma wf_init : wf init.
Proof.
  constructor.
  - reflexivity.
  - reflexivity.
  - unfold is_byte. cbn [pc init]. lia.
  - change (ram init) with (repeat 0 (Z.to_nat RAM_SIZE)).
    apply Forall_forall. intros x Hx. apply list_elem_of_In in Hx.
    apply repeat_spec in Hx. subst. unfold is_byte. lia.
  - cbn [reg init]. repeat constructor; unfold is_byte; lia.
Qed.

Ltac wf_solve :=
  cbn [snd fst cpu];
  repeat first
    [ assumption
    | apply wf_flag_of_A
    | apply wf_reg_insert
    | apply wf_ram_insert
    | apply wf_with_pc
    | apply mod_is_byte
    | apply wf_peek
    | apply wf_regv
    | apply next_input_is_byte ].


(** Close a case of the analysis of a step: the state reached is in the
    data model, and the case is on the right side of the alternative. *)
Ltac fin :=
  split; [wf_solve|];
  let H := fresh "H" in
  split; intros H;
  cbn [fst]; try reflexivity; try (eexists; reflexivity);
  exfalso;
  try (apply H; clear H);
  unfold OP_NOP, OP_LDI, OP_MOV, OP_STR, OP_ADD, OP_SUB, OP_JMP, OP_JZ,
    OP_JNZ, OP_OUT, OP_IN, OP_HLT in *;
  simpl In in *; intuition (try discriminate; try lia).

(** One step, raising or not, keeps the data model; it raises exactly
    when a register operand byte is out of range, and then with
    [IndexError]. *)
Lemma step_cases w :
  wf (cpu w) ->
  wf (cpu (snd (step w)))
  /\ (bad_register_operand (cpu w) -> fst (step w) = Raise IndexError)
  /\ (~ bad_register_operand (cpu w) -> exists b, fst (step w) = Ok b).
Proof.
  intros Hwf.
  pose proof (wf_peek (cpu w) ((pc (cpu w) + 1) mod 256) Hwf) as H1.
  pose proof (wf_peek (cpu w) ((pc (cpu w) + 2) mod 256) Hwf) as H2.
  unfold bad_register_operand, opcode_at, operand1, operand2.
  unfold is_byte in H1, H2.
  destruct (Z.eq_dec (peek (cpu w) (pc (cpu w))) OP_NOP) as [E|N1];
    [rewrite step_NOP by assumption; rewrite E; fin|].
  destruct (Z.eq_dec (peek (cpu w) (pc (cpu w))) OP_HLT) as [E|N2];
    [rewrite step_HLT by assumption; rewrite E; fin|].
  destruct (Z.eq_dec (peek (cpu w) (pc (cpu w))) OP_JMP) as [E|N3];
    [rewrite step_JMP by assumption; rewrite E; fin|].
  destruct (Z.eq_dec (peek (cpu w) (pc (cpu w))) OP_JZ) as [E|N4];
    [rewrite step_JZ by assumption; rewrite E;
     destruct (zero (cpu w)); fin|].
  destruct (Z.eq_dec (peek (cpu w) (pc (cpu w))) OP_JNZ) as [E|N5];
    [rewrite step_JNZ by assumption; rewrite E;
     destruct (zero (cpu w)); fin|].
  destruct (Z.eq_dec (peek (cpu w) (pc (cpu w))) OP_LDI) as [E|N6];
    [destruct (Z_lt_le_dec (peek (cpu w) ((pc (cpu w) + 1) mod 256)) 2);
     [rewrite step_LDI by (assumption || lia)
     |rewrite step_LDI_above by assumption]; rewrite E; fin|].
  destruct (Z.eq_dec (peek (cpu w) (pc (cpu w))) OP_MOV) as [E|N7];
    [destruct (Z_lt_le_dec (peek (cpu w) ((pc (cpu w) + 1) mod 256)) 2);
     [rewrite step_MOV by (assumption || lia)
     |rewrite step_MOV_above by assumption]; rewrite E; fin|].
  destruct (Z.eq_dec (peek (cpu w) (pc (cpu w))) OP_STR) as [E|N8];
    [destruct (Z_lt_le_dec (peek (cpu w) ((pc (cpu w) + 1) mod 256)) 2);
     [rewrite step_STR by (assumption || lia)
     |rewrite step_STR_above by assumption]; rewrite E; fin|].
  destruct (Z.eq_dec (peek (cpu w) (pc (cpu w))) OP_OUT) as [E|N9];
    [destruct (Z_lt_le_dec (peek (cpu w) ((pc (cpu w) + 1) mod 256)) 2);
     [rewrite step_OUT by (assumption || lia)
     |rewrite step_OUT_above by assumption]; rewrite E; fin|].
  destruct (Z.eq_dec (peek (cpu w) (pc (cpu w))) OP_IN) as [E|N10];
    [destruct (Z_lt_le_dec (peek (cpu w) ((pc (cpu w) + 1) mod 256)) 2);
     [rewrite step_IN by (assumption || lia)
     |rewrite step_IN_above by assumption]; rewrite E; fin|].
  destruct (Z.eq_dec (peek (cpu w) (pc (cpu w))) OP_ADD) as [E|N11];
    [destruct (Z_lt_le_dec (peek (cpu w) ((pc (cpu w) + 1) mod 256)) 2);
     [destruct (Z_lt_le_dec (peek (cpu w) ((pc (cpu w) + 2) mod 256)) 2);
      [rewrite step_ADD by (assumption || lia)
      |rewrite step_ADD_above by (assumption || lia)]
     |rewrite step_ADD_above by (assumption || lia)]; rewrite E; fin|].
  destruct (Z.eq_dec (peek (cpu w) (pc (cpu w))) OP_SUB) as [E|N12];
    [destruct (Z_lt_le_dec (peek (cpu w) ((pc (cpu w) + 1) mod 256)) 2);
     [destruct (Z_lt_le_dec (peek (cpu w) ((pc (cpu w) + 2) mod 256)) 2);
      [rewrite step_SUB by (assumption || lia)
      |rewrite step_SUB_above by (assumption || lia)]
     |rewrite step_SUB_above by (assumption || lia)]; rewrite E; fin|].
  rewrite step_unknown
    by (try assumption; unfold opcodes; simpl; intuition congruence).
  split; [wf_solve|].
  split; [intros Hbad|intros Hgood]; cbn [fst];
    [|eexists; reflexivity].
  exfalso. simpl In in Hbad. intuition congruence.
Qed.

End Invariant.

Section Claims.

Import Emu.

Lemma wf_b_true c : wf_b c = true -> wf c.
Proof.
  unfold wf_b. rewrite !andb_true_iff.
  intros [[[[Hl Hg] Hp] Hram] Hreg].
  assert (Hb : forall z, is_byte_b z = true -> is_byte z).
  { intros z. unfold is_byte_b, is_byte. rewrite andb_true_iff. lia. }
  constructor.
  - now apply Nat.eqb_eq.
  - now apply Nat.eqb_eq.
  - now apply Hb.
  - apply Forall_forall. intros x Hx. apply Hb.
    rewrite forallb_forall in Hram. apply Hram. now apply list_elem_of_In.
  - apply Forall_forall. intros x Hx. apply Hb.
    rewrite forallb_forall in Hreg. apply Hreg. now apply list_elem_of_In.
Qed.

Lemma peek_insert_eq c c' (a v : Z) :
  wf c -> is_byte a ->
  peek (with_ram (<[Z.to_nat a := v]> (ram c)) c') a = v.
Proof.
  intros [Hl _ _ _ _] Ha. unfold peek. cbn [ram with_ram].
  rewrite list_lookup_insert_eq; [reflexivity|].
  unfold is_byte in Ha. lia.
Qed.

Lemma peek_insert_ne c c' (a j v : Z) :
  is_byte a -> is_byte j -> j <> a ->
  peek (with_ram (<[Z.to_nat a := v]> (ram c)) c') j = peek c j.
Proof.
  intros Ha Hj Hne. unfold peek. cbn [ram with_ram].
  rewrite list_lookup_insert_ne; [reflexivity|].
  unfold is_byte in *. lia.
Qed.

End Claims.

(** *** [STR] changes one RAM cell and the program counter *)

(** C7: in a state of the data model whose program counter addresses a
    [STR] opcode with register operand [r] in {0, 1} and address operand
    [a], the step continues, RAM[a] becomes register[r], the program
    counter advances by 3 modulo 256, and the registers, the zero flag and
    every other RAM cell are unchanged. *)
Theorem C7_str_frame (w : Emu.world) (r a : Z) :
  wf (Emu.cpu w) ->
  opcode_at (Emu.cpu w) = OP_STR ->
  operand1 (Emu.cpu w) = r ->
  operand2 (Emu.cpu w) = a ->
  r = 0 \/ r = 1 ->
  exists w',
    Emu.step w = (Ok true, w') /\
    peek (Emu.cpu w') a = regv (Emu.cpu w) r /\
    (forall j, is_byte j -> j <> a ->
               peek (Emu.cpu w') j = peek (Emu.cpu w) j) /\
    Emu.pc (Emu.cpu w') = (Emu.pc (Emu.cpu w) + 3) mod 256 /\
    Emu.reg (Emu.cpu w') = Emu.reg (Emu.cpu w) /\
    Emu.zero (Emu.cpu w') = Emu.zero (Emu.cpu w).
Proof.
  unfold opcode_at, operand1, operand2. intros Hwf Hop Hr Ha Hr01.
  assert (Hbyte : is_byte a) by (subst a; now apply wf_peek).
  eexists. split.
  - apply step_STR; [assumption|assumption|lia].
  - rewrite Hr, Ha. cbn [Emu.cpu]. repeat split.
    + now apply peek_insert_eq.
    + intros j Hj Hne. now apply peek_insert_ne.
Qed.

(** The theorem at [STR B, 7] on a new CPU. *)
Lemma C7_str_frame_witness :
  exists w',
    Emu.step (Emu.World (machine [0x12; 1; 7] 0) [] []) = (Ok true, w') /\
    peek (Emu.cpu w') 7 = 0 /\
    Emu.pc (Emu.cpu w') = 3.
Proof.
  destruct (C7_str_frame (Emu.World (machine [0x12; 1; 7] 0) [] []) 1 7)
    as (w' & E & Hram & _ & Hpc & _).
  - apply wf_b_true. vm_compute. reflexivity.
  - reflexivity.
  - reflexivity.
  - reflexivity.
  - right. reflexivity.
  - exists w'. split; [exact E|]. split; [exact Hram|exact Hpc].
Defined.

(** *** The zero flag follows register A *)

Lemma regv_insert_other (c c' : Emu.CPU) (v : Z) :
  regv (Emu.with_reg (<[1%nat := v]> (Emu.reg c)) c') 0 = regv c 0.
Proof.
  unfold regv. cbn [Emu.reg Emu.with_reg].
  now rewrite list_lookup_insert_ne by discriminate.
Qed.

(** C5: when the byte at the program counter is the opcode of [LDI], [MOV]
    or [IN], a step that completes leaves the zero flag equal to
    (register A == 0) for the value register A has after the step; when the
    register operand selects register B, register A is the one it was.  The
    step completes whenever the register operand is 0 or 1. *)
Theorem C5_zero_flag_follows_A (w : Emu.world) :
  wf (Emu.cpu w) ->
  In (opcode_at (Emu.cpu w)) [OP_LDI; OP_MOV; OP_IN] ->
  (forall b w',
     Emu.step w = (Ok b, w') ->
     Emu.zero (Emu.cpu w') = (regv (Emu.cpu w') Emu.REG_A =? 0) /\
     (operand1 (Emu.cpu w) = Emu.REG_B ->
      regv (Emu.cpu w') Emu.REG_A = regv (Emu.cpu w) Emu.REG_A)) /\
  (operand1 (Emu.cpu w) < 2 -> exists w', Emu.step w = (Ok true, w')).
Proof.
  unfold opcode_at, operand1, Emu.REG_A, Emu.REG_B. intros Hwf Hop.
  pose proof (wf_peek (Emu.cpu w) ((Emu.pc (Emu.cpu w) + 1) mod 256) Hwf) as H1.
  unfold is_byte in H1.
  destruct (Z_lt_le_dec
              (peek (Emu.cpu w) ((Emu.pc (Emu.cpu w) + 1) mod 256)) 2)
    as [Hlt|Hge].
  - assert (Hr : 0 <= peek (Emu.cpu w) ((Emu.pc (Emu.cpu w) + 1) mod 256) < 2)
      by lia.
    simpl In in Hop. destruct Hop as [Hop|[Hop|[Hop|[]]]]; symmetry in Hop.
    + rewrite (step_LDI w Hwf Hop Hr). split; [|eauto].
      intros b w' [= <- <-]. cbn [Emu.cpu]. split; [reflexivity|].
      intros ->. apply regv_insert_other.
    + rewrite (step_MOV w Hwf Hop Hr). split; [|eauto].
      intros b w' [= <- <-]. cbn [Emu.cpu]. split; [reflexivity|].
      intros ->. apply regv_insert_other.
    + rewrite (step_IN w Hwf Hop Hr). split; [|eauto].
      intros b w' [= <- <-]. cbn [Emu.cpu]. split; [reflexivity|].
      intros ->. apply regv_insert_other.
  - split; [|lia].
    simpl In in Hop. destruct Hop as [Hop|[Hop|[Hop|[]]]]; symmetry in Hop.
    + rewrite (step_LDI_above w Hwf Hop Hge). discriminate.
    + rewrite (step_MOV_above w Hwf Hop Hge). discriminate.
    + rewrite (step_IN_above w Hwf Hop Hge). discriminate.
Qed.

(** The theorem at [LDI B, 0] on a CPU whose register A holds 5: the flag
    stays false though the value loaded is 0. *)
Lemma C5_zero_flag_follows_A_witness :
  let w := Emu.World
             (Emu.with_reg [5; 9] (machine [0x10; 1; 0] 0)) [] [] in
  exists w',
    Emu.step w = (Ok true, w') /\
    Emu.zero (Emu.cpu w') = false /\
    regv (Emu.cpu w') 0 = 5 /\ regv (Emu.cpu w') 1 = 0.
Proof.
  intros w.
  assert (Hwf : wf (Emu.cpu w)) by (apply wf_b_true; vm_compute; reflexivity).
  assert (Hop : In (opcode_at (Emu.cpu w)) [OP_LDI; OP_MOV; OP_IN])
    by (left; reflexivity).
  destruct (C5_zero_flag_follows_A w Hwf Hop) as [Hflag Hok].
  destruct Hok as (w' & E); [vm_compute; reflexivity|].
  exists w'. split; [exact E|].
  destruct (Hflag true w' E) as [Hz HA].
  rewrite Hz, (HA eq_refl).
  assert (E' : Emu.step w = (Ok true, w')) by exact E.
  vm_compute in E'. injection E' as <-.
  repeat split; reflexivity.
Defined.

(** *** Everything stays a byte *)



(** *** Register operand bytes above 1 *)

(** C10: in a state of the data model, when the byte at the program
    counter is the opcode of [LDI], [MOV], [STR], [ADD], [SUB], [OUT] or
    [IN] and the register operand byte after it is in 2..255, the step
    raises [IndexError] from the two-element register file: it neither
    halts nor reports.  A step raises only so: it returns whenever no
    register operand byte is out of range. *)
Theorem C10_register_operand_unguarded (w : Emu.world) :
  wf (Emu.cpu w) ->
  (In (opcode_at (Emu.cpu w)) reg_opcodes -> 2 <= operand1 (Emu.cpu w) ->
   fst (Emu.step w) = Raise IndexError) /\
  (bad_register_operand (Emu.cpu w) <-> fst (Emu.step w) = Raise IndexError) /\
  (~ bad_register_operand (Emu.cpu w) <-> exists b, fst (Emu.step w) = Ok b).
Proof.
  intros Hwf. destruct (step_cases w Hwf) as (_ & Hbad & Hgood).
  assert (Hdec : bad_register_operand (Emu.cpu w)
                 \/ ~ bad_register_operand (Emu.cpu w)).
  { unfold bad_register_operand.
    destruct (Z_lt_le_dec (operand1 (Emu.cpu w)) 2);
      destruct (Z_lt_le_dec (operand2 (Emu.cpu w)) 2);
      destruct (in_dec Z.eq_dec (opcode_at (Emu.cpu w))
                  [OP_LDI; OP_MOV; OP_STR; OP_OUT; OP_IN]);
      destruct (in_dec Z.eq_dec (opcode_at (Emu.cpu w)) [OP_ADD; OP_SUB]);
      tauto || (right; intros [[? ?]|[? [?|?]]]; (contradiction || lia)). }
  split; [|split; split].
  - intros Hop Hr. apply Hbad. unfold bad_register_operand.
    unfold reg_opcodes in Hop. simpl In in *. intuition.
  - exact Hbad.
  - intros E. destruct Hdec as [H|H]; [exact H|].
    destruct (Hgood H) as [b Eb]. congruence.
  - exact Hgood.
  - intros [b Eb] H. rewrite (Hbad H) in Eb. discriminate.
Qed.

(** The theorem at [LDI] with register operand byte 2. *)
Lemma C10_register_operand_unguarded_witness :
  fst (Emu.step (Emu.World (machine [0x10; 2; 65] 0) [] []))
    = Raise IndexError.
Proof.
  assert (Hwf : wf (Emu.cpu (Emu.World (machine [0x10; 2; 65] 0) [] [])))
    by (apply wf_b_true; vm_compute; reflexivity).
  apply (proj1 (C10_register_operand_unguarded _ Hwf)).
  - left. reflexivity.
  - vm_compute. discriminate.
Defined.

(** *** Assembling one instruction and executing it *)

Section RoundTrip.

Import Emu.

Lemma in_bytes z : is_byte z -> In z bytes.
Proof.
  intros H. unfold bytes. apply in_map_iff. exists (Z.to_nat z).
  unfold is_byte in H. split; [lia|]. apply in_seq. lia.
Qed.

Lemma assembles_all n (f : Z -> instr) :
  forallb (fun z => assembles n (f z)) bytes = true ->
  forall z, is_byte z -> Asm.assemble [render n (f z)] = Ok (encode (f z)).
Proof.
  intros H z Hz. rewrite forallb_forall in H.
  specialize (H z (in_bytes z Hz)). unfold assembles in H.
  destruct (Asm.assemble [render n (f z)]); [|discriminate].
  apply bool_decide_eq_true_1 in H. now subst.
Qed.

(** Every instruction with valid operands assembles to its encoding. *)
Lemma assemble_render n i :
  valid i -> Asm.assemble [render n i] = Ok (encode i).
Proof.
  destruct i as [|r z|r z|r z|r1 r2|r1 r2|z|z|z|r|r|]; simpl valid;
    intros Hv; destruct n;
    try (destruct r); try (destruct r1; destruct r2);
    lazymatch goal with
    | |- Asm.assemble [render ?n (?f ?r ?z)] = _ =>
        tryif is_var z
        then apply (assembles_all n (f r)); [vm_compute; reflexivity|exact Hv]
        else (vm_compute; reflexivity)
    | |- Asm.assemble [render ?n (?f ?z)] = _ =>
        tryif is_var z
        then apply (assembles_all n f); [vm_compute; reflexivity|exact Hv]
        else (vm_compute; reflexivity)
    | |- _ => vm_compute; reflexivity
    end.
Qed.

Lemma load_loop_stored data : forall addr i w,
  length (ram (cpu w)) = 256%nat ->
  load_loop addr i data w
    = (Ok tt, World (with_ram (stored (ram (cpu w)) addr i data) (cpu w))
                    (stdin w) (stdout w)).
Proof.
  induction data as [|b data IH]; intros addr i w Hl; simpl.
  - destruct w as [[] ? ?]. reflexivity.
  - unfold RAM_SIZE.
    rewrite bind_ram_set by (try apply mod_is_byte; assumption).
    rewrite IH by (cbn [cpu ram with_ram]; now rewrite length_insert).
    reflexivity.
Qed.

Lemma stored_length data : forall l addr i,
  length (stored l addr i data) = length l.
Proof.
  induction data as [|b data IH]; intros l addr i; simpl; [reflexivity|].
  now rewrite IH, length_insert.
Qed.

Lemma stored_bytes data : forall l addr i,
  Forall is_byte l -> Forall is_byte (stored l addr i data).
Proof.
  induction data as [|b data IH]; intros l addr i H; simpl; [exact H|].
  apply IH, Forall_insert; [exact H|apply land_is_byte].
Qed.

(** Loading at address 0 leaves the cells outside the image alone. *)
Lemma stored_outside data : forall l i (j : nat),
  0 <= i -> i + Z.of_nat (length data) <= 256 ->
  (j < Z.to_nat i \/ Z.to_nat i + length data <= j)%nat ->
  stored l 0 i data !! j = l !! j.
Proof.
  induction data as [|b data IH]; intros l i j Hi Hn Hj; simpl;
    [reflexivity|].
  simpl length in Hn, Hj.
  rewrite IH by lia.
  rewrite Z.add_0_l, Z.mod_small by lia.
  apply list_lookup_insert_ne. lia.
Qed.

(** Loading at address 0 puts the [k]-th byte of the image at address
    [k]. *)
Lemma stored_inside data : forall l i (k : nat) b,
  0 <= i -> i + Z.of_nat (length data) <= 256 -> length l = 256%nat ->
  data !! k = Some b ->
  stored l 0 i data !! (Z.to_nat i + k)%nat = Some (Z.land b 0xFF).
Proof.
  induction data as [|b' data IH]; intros l i k b Hi Hn Hl Hk; simpl;
    [discriminate|].
  simpl length in Hn.
  rewrite Z.add_0_l, Z.mod_small by lia.
  destruct k as [|k]; simpl in Hk.
  - injection Hk as ->. rewrite stored_outside by lia.
    rewrite Nat.add_0_r. apply list_lookup_insert_eq. lia.
  - replace (Z.to_nat i + S k)%nat with (Z.to_nat (i + 1) + k)%nat by lia.
    apply IH; try lia; [now rewrite length_insert|exact Hk].
Qed.

(** The state in which the step of the round trip begins. *)
Lemma load_at_0_spec image w :
  wf (cpu w) -> (length image <= 256)%nat -> Forall is_byte image ->
  exists w0,
    load_at_0 image w = (Ok tt, w0) /\
    wf (cpu w0) /\
    w0 = World (with_pc 0 (with_ram (ram (cpu w0)) (cpu w)))
               (stdin w) (stdout w) /\
    forall k b, image !! k = Some b -> peek (cpu w0) (Z.of_nat k) = b.
Proof.
  intros Hwf Hlen Himg. pose proof Hwf as [Hl Hg Hp Hram Hreg].
  eexists. unfold load_at_0, load_bin, bind.
  rewrite load_loop_stored by assumption. split; [reflexivity|].
  cbn [modify cpu stdin stdout]. change (0 mod RAM_SIZE) with 0.
  split; [|split; [reflexivity|]].
  - apply wf_with_pc; [|unfold is_byte; lia].
    constructor; cbn [ram reg pc with_ram]; try assumption.
    + now rewrite stored_length.
    + now apply stored_bytes.
  - intros k b Hk. unfold peek. cbn [ram with_pc with_ram].
    rewrite Nat2Z.id.
    change k with (Z.to_nat 0 + k)%nat at 1.
    rewrite (stored_inside image (ram (cpu w)) 0 k b) by (assumption || lia).
    simpl. apply land_byte.
    rewrite Forall_forall in Himg. apply Himg.
    eapply list_elem_of_lookup_2, Hk.
Qed.

End RoundTrip.

(** The state, the RAM and the output after the step are the predicted
    ones, for an instruction that only moves the counter and the
    registers. *)
Ltac observed :=
  split; [vm_compute; reflexivity|];
  split; [intros ? ?; reflexivity|];
  cbn [Emu.stdout predict_out]; rewrite ?app_nil_r; reflexivity.

(** C1: for every mnemonic and every choice of register operands and byte
    operands, the bytes written in decimal or in hexadecimal, the one-line
    program of the instruction assembles, without error, to the bytes of
    the instruction, and one step of the emulator on
    those bytes, loaded at address 0 of a CPU in any state of the data
    model, returns and leaves the registers, the zero flag and the program
    counter that section 4.3 predicts, together with the RAM and the output
    it predicts. *)
Theorem C1_assemble_then_step (n : notation) (i : instr) (w : Emu.world) :
  valid i ->
  wf (Emu.cpu w) ->
  exists image w0 w1,
    Asm.assemble [render n i] = Ok image /\
    load_at_0 image w = (Ok tt, w0) /\
    Emu.step w0 = (Ok (continues i), w1) /\
    observe (Emu.cpu w1)
      = predict i (observe (Emu.cpu w0)) (peek (Emu.cpu w0))
          (head (Emu.stdin w0)) /\
    (forall a, is_byte a ->
       peek (Emu.cpu w1) a
         = predict_mem i (observe (Emu.cpu w0)) (peek (Emu.cpu w0)) a) /\
    Emu.stdout w1 = trace_out w0 ++ predict_out i (observe (Emu.cpu w0)).
Proof.
  intros Hv Hwf.
  assert (Hreg : forall r, 0 <= reg_index r < 2) by (intros []; simpl; lia).
  destruct (load_at_0_spec (encode i) w Hwf) as (w0 & Hload & Hwf0 & Hw0 & Hmem).
  { destruct i; simpl; lia. }
  { destruct i as [|r z|r z|r z|r1 r2|r1 r2|z|z|z|r|r|]; simpl in *;
      repeat apply List.Forall_cons; try apply List.Forall_nil;
      try exact Hv; try apply Hreg; unfold is_byte;
      try (pose proof (Hreg r)); try (pose proof (Hreg r1));
      try (pose proof (Hreg r2)); try lia; vm_compute; intuition discriminate. }
  exists (encode i), w0.
  assert (Hpc : Emu.pc (Emu.cpu w0) = 0) by (rewrite Hw0; reflexivity).
  clear Hw0.
  destruct w0 as [[ram0 reg0 pc0 z0 run0 tr0] in0 out0].
  cbn [Emu.cpu Emu.pc] in Hpc. subst pc0.
  pose proof (wf_reg_len _ Hwf0) as Hlen. cbn [Emu.reg Emu.cpu] in Hlen.
  destruct reg0 as [|ra [|rb [|]]]; try discriminate Hlen. clear Hlen.
  set (w0 := Emu.World (Emu.Cpu ram0 [ra; rb] 0 z0 run0 tr0) in0 out0) in *.
  enough (Hstep : exists w1,
    Emu.step w0 = (Ok (continues i), w1) /\
    observe (Emu.cpu w1)
      = predict i (observe (Emu.cpu w0)) (peek (Emu.cpu w0))
          (head (Emu.stdin w0)) /\
    (forall a, is_byte a ->
       peek (Emu.cpu w1) a
         = predict_mem i (observe (Emu.cpu w0)) (peek (Emu.cpu w0)) a) /\
    Emu.stdout w1 = trace_out w0 ++ predict_out i (observe (Emu.cpu w0))).
  { destruct Hstep as (w1 & Hstep). exists w1.
    split; [apply assemble_render, Hv|]. split; [exact Hload|exact Hstep]. }
  clear Hload.
  assert (H0 : forall b, encode i !! 0%nat = Some b ->
                         peek (Emu.cpu w0) (Emu.pc (Emu.cpu w0)) = b)
    by (intros b Hb; apply (Hmem 0%nat b Hb)).
  assert (H1 : forall b, encode i !! 1%nat = Some b ->
                peek (Emu.cpu w0) ((Emu.pc (Emu.cpu w0) + 1) mod 256) = b)
    by (intros b Hb; apply (Hmem 1%nat b Hb)).
  assert (H2 : forall b, encode i !! 2%nat = Some b ->
                peek (Emu.cpu w0) ((Emu.pc (Emu.cpu w0) + 2) mod 256) = b)
    by (intros b Hb; apply (Hmem 2%nat b Hb)).
  clear Hmem.
  destruct i as [|r z|r z|r z|r1 r2|r1 r2|z|z|z|r|r|]; simpl in Hv;
    specialize (H0 _ eq_refl);
    try specialize (H1 _ eq_refl); try specialize (H2 _ eq_refl).
  all: try (pose proof (Hreg r) as Hr; rewrite <- H1 in Hr).
  all: try (pose proof (Hreg r1) as Hr1; rewrite <- H1 in Hr1;
            pose proof (Hreg r2) as Hr2; rewrite <- H2 in Hr2).
  - eexists. split; [apply (step_NOP w0 Hwf0 H0)|]. observed.
  - eexists. split; [apply (step_LDI w0 Hwf0 H0 Hr)|]. rewrite H1, H2.
    destruct r; observed.
  - eexists. split; [apply (step_MOV w0 Hwf0 H0 Hr)|]. rewrite H1, H2.
    destruct r; observed.
  - eexists. split; [apply (step_STR w0 Hwf0 H0 Hr)|]. rewrite H1, H2.
    split; [destruct r; vm_compute; reflexivity|].
    split; [|cbn [Emu.stdout predict_out]; now rewrite app_nil_r].
    intros a Ha. cbn [Emu.cpu predict_mem].
    destruct (Z.eqb_spec a z) as [->|Hne].
    + rewrite (peek_insert_eq (Emu.cpu w0)) by assumption.
      destruct r; reflexivity.
    + now apply peek_insert_ne.
  - eexists. split; [apply (step_ADD w0 Hwf0 H0 Hr1 Hr2)|]. rewrite H1, H2.
    destruct r1, r2; observed.
  - eexists. split; [apply (step_SUB w0 Hwf0 H0 Hr1 Hr2)|]. rewrite H1, H2.
    destruct r1, r2; observed.
  - eexists. split; [apply (step_JMP w0 Hwf0 H0)|]. rewrite H1. observed.
  - eexists. split; [apply (step_JZ w0 Hwf0 H0)|]. rewrite H1.
    destruct z0; observed.
  - eexists. split; [apply (step_JNZ w0 Hwf0 H0)|]. rewrite H1.
    destruct z0; observed.
  - eexists. split; [apply (step_OUT w0 Hwf0 H0 Hr)|]. rewrite H1.
    destruct r; observed.
  - eexists. split; [apply (step_IN w0 Hwf0 H0 Hr)|]. rewrite H1.
    subst w0. destruct r, in0; observed.
  - eexists. split; [apply (step_HLT w0 Hwf0 H0)|]. observed.
Qed.

(** The theorem at [LDI B, 0xC8] on a new CPU. *)
Lemma C1_assemble_then_step_witness :
  exists image w0 w1,
    Asm.assemble [render Hexadecimal (LDI B 200)] = Ok image /\
    load_at_0 image fresh = (Ok tt, w0) /\
    Emu.step w0 = (Ok true, w1) /\
    observe (Emu.cpu w1)
      = predict (LDI B 200) (observe (Emu.cpu w0)) (peek (Emu.cpu w0))
          (head (Emu.stdin w0)) /\
    (forall a, is_byte a ->
       peek (Emu.cpu w1) a
         = predict_mem (LDI B 200) (observe (Emu.cpu w0)) (peek (Emu.cpu w0))
             a)
    /\ Emu.stdout w1
       = trace_out w0 ++ predict_out (LDI B 200) (observe (Emu.cpu w0)).
Proof.
  apply (C1_assemble_then_step Hexadecimal (LDI B 200) fresh).
  - simpl. unfold is_byte. lia.
  - apply wf_init.
Defined.

(** *** Labels beyond address 255 *)

Section Labels.

Import Asm.
Local Open Scope result_scope.

Lemma parse_value_label (labels : gmap pystr Z) name v :
  Py.strip name = name -> is_label_ref name = true ->
  labels !! name = Some v ->
  parse_value name labels = Ok v.
Proof.
  unfold parse_value, is_label_ref. intros -> Href Hv.
  apply andb_true_iff in Href. destruct Href as [Href H3].
  apply andb_true_iff in Href. destruct Href as [H1 H2].
  apply negb_true_iff in H1, H2, H3.
  now rewrite H1, H2, H3, Hv.
Qed.

Lemma pass1_line_nop st :
  pass1_line st (str "NOP")
    = Ok (Pass1 (labels st) (pc st + 1)
                (parsed st ++ [(pc st, str "NOP", [])])).
Proof. reflexivity. Qed.

Lemma pass1_nops n rest : forall st,
  pass1_loop st (repeat (str "NOP") n ++ rest)
    = pass1_loop (Pass1 (labels st) (pc st + Z.of_nat n)
                        (parsed st ++ nops (pc st) n)) rest.
Proof.
  induction n as [|n IH]; intros st.
  - simpl. rewrite Z.add_0_r, app_nil_r. now destruct st.
  - cbn [repeat app pass1_loop]. rewrite pass1_line_nop. cbn [rbind].
    rewrite IH. cbn [labels pc parsed nops].
    rewrite <- app_assoc. cbn [app].
    replace (pc st + 1 + Z.of_nat n) with (pc st + Z.of_nat (S n)) by lia.
    reflexivity.
Qed.

Lemma mapM_app {X Y} (f : X -> result Y) l1 l2 :
  mapM f (l1 ++ l2)
    = (let! b1 := mapM f l1 in let! b2 := mapM f l2 in Ok (b1 ++ b2)).
Proof.
  induction l1 as [|a l1 IH]; simpl.
  - destruct (mapM f l2); reflexivity.
  - destruct (f a); simpl; [|reflexivity]. rewrite IH.
    destruct (mapM f l1); simpl; [|reflexivity].
    destruct (mapM f l2); reflexivity.
Qed.

Lemma mapM_nops (labels : gmap pystr Z) n : forall a,
  mapM (gen labels) (nops a n) = Ok (repeat [OP_NOP] n).
Proof.
  induction n as [|n IH]; intros a; [reflexivity|].
  cbn [nops mapM repeat].
  change (gen labels (a, str "NOP", [])) with (@Ok (list Z) [OP_NOP]).
  cbn [rbind]. now rewrite IH.
Qed.

Lemma concat_repeat_singleton {X} (x : X) n :
  concat (repeat [x] n) = repeat x n.
Proof. induction n; simpl; congruence. Qed.

(** The bytes of a jump whose operand resolves to [v]. *)
Lemma gen_jump (labels : gmap pystr Z) addr o token v opc :
  In o (map str ["JMP"; "JZ"; "JNZ"]%string) ->
  OP o = Ok opc ->
  parse_value (Py.strip token) labels = Ok v ->
  gen labels (addr, o, [token]) = Ok [opc; v mod 256].
Proof.
  intros Hin Hop Hv. rewrite <- land_mod.
  simpl in Hin. destruct Hin as [<-|[<-|[<-|[]]]];
    match goal with
    | |- gen _ (_, ?o, _) = _ =>
        change (gen labels (addr, o, [token]))
          with (let! opc := OP o in
                let! v := parse_value (Py.strip token) labels in
                Ok [opc; Z.land v 0xFF])
    end;
    rewrite Hop, Hv; reflexivity.
Qed.

(** The bytes of [LDI], [MOV] and [STR] whose second operand resolves to
    [v]. *)
Lemma gen_load_store (labels : gmap pystr Z) addr o r token v opc :
  In o (map str ["LDI"; "MOV"; "STR"]%string) ->
  OP o = Ok opc ->
  parse_value (Py.strip token) labels = Ok v ->
  gen labels (addr, o, [reg_name r; token])
    = Ok [opc; reg_index r; v mod 256].
Proof.
  intros Hin Hop Hv. rewrite <- land_mod.
  simpl in Hin. destruct Hin as [<-|[<-|[<-|[]]]]; destruct r;
    match goal with
    | |- gen _ (_, ?o, [?a; _]) = Ok [_; ?x; _] =>
        change (gen labels (addr, o, [a; token]))
          with (let! opc := OP o in
                let! v := parse_value (Py.strip token) labels in
                Ok [opc; x; Z.land v 0xFF])
    end;
    rewrite Hop, Hv; reflexivity.
Qed.

(** The program [far_jump n] binds [far] to [n] and assembles. *)
Lemma pass1_far_jump n :
  pass1 (far_jump n)
    = Ok (Pass1 (<[str "far" := Z.of_nat n]> ∅) (Z.of_nat n + 2)
                (nops 0 n ++ [(Z.of_nat n, str "JMP", [str "far"])])).
Proof.
  unfold pass1, far_jump. rewrite pass1_nops. reflexivity.
Qed.

Lemma assemble_far_jump n :
  assemble (far_jump n)
    = Ok (repeat OP_NOP n ++ [OP_JMP; Z.of_nat n mod 256]).
Proof.
  unfold assemble. rewrite pass1_far_jump. cbn [rbind labels parsed].
  unfold pass2. rewrite mapM_app, mapM_nops. cbn [rbind mapM].
  rewrite (gen_jump _ _ _ _ (Z.of_nat n) OP_JMP).
  - cbn [rbind]. rewrite concat_app, concat_repeat_singleton.
    reflexivity.
  - left. reflexivity.
  - reflexivity.
  - apply parse_value_label; [reflexivity|reflexivity|].
    apply lookup_insert_eq.
Qed.

End Labels.

(** ** Further properties of the assembler *)

Section TokenizeMore.

Import Asm.

Lemma scan_tokens_nonempty s : forall st,
  Forall (fun t => t <> []) (tokens st) ->
  Forall (fun t => t <> []) (tokens (fold_left scan s st)).
Proof.
  induction s as [|c s IH]; intros st H; simpl; [exact H|].
  apply IH. unfold scan.
  destruct (in_quote st); [exact H|].
  destruct (is_quote c); [exact H|].
  destruct (is_sep c); [|exact H].
  destruct (current st) as [|c0 cur] eqn:E; [exact H|].
  cbn [tokens]. apply Forall_app. split; [exact H|].
  apply List.Forall_cons; [discriminate|apply List.Forall_nil].
Qed.

Lemma unseparated_app a b :
  unseparated (a ++ b) = unseparated a ++ unseparated b.
Proof. apply List.filter_app. Qed.

Lemma scan_held st c : held (scan st c) = held st ++ unseparated [c].
Proof.
  unfold held, scan.
  destruct (in_quote st).
  { cbn [tokens current]. now rewrite app_assoc, unseparated_app. }
  destruct (is_quote c) eqn:Hq.
  { cbn [tokens current]. now rewrite app_assoc, unseparated_app. }
  destruct (is_sep c) eqn:Hs.
  - assert (Hc : unseparated [c] = [])
      by (unfold unseparated; simpl; now rewrite Hs).
    rewrite Hc, app_nil_r.
    destruct (current st) as [|c0 cur] eqn:E; [now rewrite E|].
    cbn [tokens current]. rewrite concat_app. simpl.
    now rewrite !app_nil_r.
  - cbn [tokens current]. now rewrite app_assoc, unseparated_app.
Qed.

Lemma fold_scan_held s : forall st,
  held (fold_left scan s st) = held st ++ unseparated s.
Proof.
  induction s as [|c s IH]; intros st; simpl.
  - now rewrite app_nil_r.
  - rewrite IH, scan_held. rewrite <- app_assoc.
    now rewrite <- unseparated_app.
Qed.

Lemma flush_held st : unseparated (concat (flush st)) = held st.
Proof.
  unfold flush, held. destruct (current st) as [|c cur].
  - now rewrite app_nil_r.
  - rewrite concat_app. simpl. now rewrite app_nil_r.
Qed.

End TokenizeMore.

(** X1: no token of [tokenize] is the empty string, whatever the line. *)
Theorem X1_tokens_nonempty (line t : pystr) :
  In t (Asm.tokenize line) -> t <> [].
Proof.
  unfold Asm.tokenize.
  destruct (Py.strip (Py.before ";"%char line)) as [|c l] eqn:E;
    [intros []|].
  intros Hin.
  pose proof (scan_tokens_nonempty (c :: l) Asm.scan_start
                (List.Forall_nil _)) as H.
  unfold Asm.flush in Hin.
  rewrite Forall_forall in H.
  destruct (Asm.current (fold_left Asm.scan (c :: l) Asm.scan_start))
    as [|c0 cur] eqn:Ec.
  - apply H. now apply list_elem_of_In.
  - apply in_app_or in Hin. destruct Hin as [Hin|[<-|[]]].
    + apply H. now apply list_elem_of_In.
    + discriminate.
Qed.

(** The theorem at a line of separators with one mnemonic among them. *)
Lemma X1_tokens_nonempty_witness : str "HLT" <> [].
Proof.
  apply (X1_tokens_nonempty (str " ,, HLT ,	, ; stop")).
  vm_compute. left. reflexivity.
Defined.

(** X2: [tokenize] loses and reorders nothing but separators: the tokens,
    joined, hold the characters of the line before its first semicolon,
    stripped, in the same order, but for blanks, tabs and commas. *)
Theorem X2_tokens_keep_characters (line : pystr) :
  unseparated (concat (Asm.tokenize line))
    = unseparated (Py.strip (Py.before ";"%char line)).
Proof.
  unfold Asm.tokenize.
  destruct (Py.strip (Py.before ";"%char line)) as [|c l] eqn:E;
    [reflexivity|].
  rewrite flush_held, fold_scan_held. reflexivity.
Qed.

Section AssembleMore.

Import Asm.
Local Open Scope result_scope.

Lemma pass1_loop_app l1 : forall st l2,
  pass1_loop st (l1 ++ l2)
    = (let! st' := pass1_loop st l1 in pass1_loop st' l2).
Proof.
  induction l1 as [|raw l1 IH]; intros st l2; simpl; [reflexivity|].
  destruct (pass1_line st raw); simpl; [apply IH|reflexivity].
Qed.

Lemma pass1_line_skipped st raw :
  skipped raw = true -> pass1_line st raw = Ok st.
Proof. unfold skipped, pass1_line. now intros ->. Qed.

Lemma mem_In x l : mem x l = true <-> In x (map str l).
Proof.
  unfold mem. rewrite existsb_exists, in_map_iff. split.
  - intros (y & Hy & E). apply bool_decide_eq_true_1 in E. eauto.
  - intros (y & <- & Hy). exists y. split; [exact Hy|].
    now apply bool_decide_eq_true_2.
Qed.

Lemma size_unknown op args :
  mem op mnemonics = false ->
  size op args = Raise (ValueError (UnknownOp op)).
Proof.
  unfold mem, mnemonics. cbn [existsb]. intros H.
  repeat (apply orb_false_iff in H; destruct H as [? H]).
  unfold size, mem. cbn [existsb].
  repeat match goal with E : Py.eqs _ _ = false |- _ => rewrite E; clear E end.
  reflexivity.
Qed.

Lemma size_known op args n :
  size op args = Ok n -> In op (map str mnemonics).
Proof.
  intros H. apply mem_In.
  destruct (mem op mnemonics) eqn:E; [reflexivity|].
  rewrite (size_unknown _ _ E) in H. discriminate.
Qed.




(** Take the successful binds of a hypothesis apart. *)
Ltac bind_inv H :=
  repeat match type of H with
  | rbind ?m _ = Ok _ =>
      let E := fresh "E" in
      destruct m eqn:E; cbn [rbind] in H; [|discriminate H]
  end.



End AssembleMore.



(** X4: a blank line and a line that begins with a semicolon change
    nothing: the program assembles as it does without that line, be it to
    bytes or to an error. *)
Theorem X4_blank_and_comment_lines (l1 l2 : list pystr) (raw : pystr) :
  skipped raw = true ->
  Asm.assemble (l1 ++ raw :: l2) = Asm.assemble (l1 ++ l2).
Proof.
  intros Hs. unfold Asm.assemble, Asm.pass1.
  rewrite !pass1_loop_app.
  destruct (Asm.pass1_loop _ l1) as [st|]; cbn [rbind]; [|reflexivity].
  cbn [Asm.pass1_loop]. now rewrite pass1_line_skipped.
Qed.

(** The theorem at an indented comment between two instructions. *)
Lemma X4_blank_and_comment_lines_witness :
  Asm.assemble (map str ["NOP"; "   ; nothing here"; "HLT"]%string)
    = Asm.assemble (map str ["NOP"; "HLT"]%string).
Proof.
  apply (X4_blank_and_comment_lines [str "NOP"] [str "HLT"]
           (str "   ; nothing here")).
  reflexivity.
Defined.

(** X5: a line whose first token, in upper case, is no mnemonic makes the
    whole assembly raise [ValueError] ("Unknown op") in the first pass,
    whatever follows it, as soon as the lines before it pass the first
    pass: no byte is produced. *)
Theorem X5_unknown_mnemonic (l1 l2 : list pystr) (raw t : pystr)
    (args : list pystr) (st : Asm.pass1_state) :
  Asm.pass1 l1 = Ok st ->
  instruction_line raw t args ->
  Asm.mem (Py.upper t) mnemonics = false ->
  Asm.assemble (l1 ++ raw :: l2)
    = Raise (ValueError (UnknownOp (Py.upper t))).
Proof.
  intros H1 (Hs & Hl & Ht) Hm. unfold Asm.assemble, Asm.pass1 in *.
  rewrite pass1_loop_app, H1. cbn [rbind Asm.pass1_loop].
  unfold skipped in Hs. unfold Asm.pass1_line.
  rewrite Hs, Hl, Ht, (size_unknown _ _ Hm). reflexivity.
Qed.

(** The theorem at the mnemonic [xyz] after a valid line. *)
Lemma X5_unknown_mnemonic_witness :
  Asm.assemble (map str ["NOP"; "xyz 1, 2"; "HLT"]%string)
    = Raise (ValueError (UnknownOp (str "XYZ"))).
Proof.
  apply (X5_unknown_mnemonic [str "NOP"] [str "HLT"] (str "xyz 1, 2")
           (str "xyz") [str "1"; str "2"] (Asm.Pass1 ∅ 1 [(0, str "NOP", [])])).
  - reflexivity.
  - repeat split; reflexivity.
  - reflexivity.
Defined.

Section Sizes.

Import Asm.
Local Open Scope result_scope.

Ltac bind_inv H :=
  repeat match type of H with
  | rbind ?m _ = Ok _ =>
      let E := fresh "E" in
      destruct m eqn:E; cbn [rbind] in H; [|discriminate H]
  end.

Lemma size_upper op args n : size op args = Ok n -> Py.upper op = op.
Proof.
  intros H. apply size_known in H. unfold mnemonics in H. simpl in H.
  repeat (destruct H as [<-|H]; [reflexivity|]). destruct H.
Qed.

(** Away from [DB], the second pass emits as many bytes as the first pass
    counted. *)
Lemma gen_length (labels : gmap pystr Z) a op args n bs :
  size op args = Ok n ->
  Py.eqs op (str "DB") = false ->
  gen labels (a, op, args) = Ok bs ->
  Z.of_nat (length bs) = n.
Proof.
  intros Hs Hdb Hg. pose proof (size_upper _ _ _ Hs) as Hu.
  unfold gen in Hg. rewrite Hu, Hdb in Hg.
  unfold size in Hs. rewrite Hdb in Hs.
  repeat match type of Hs with
  | (if mem ?o ?l then _ else _) = _ => destruct (mem o l)
  end;
    try discriminate Hs; injection Hs as <-;
    bind_inv Hg; injection Hg as <-; reflexivity.
Qed.

Lemma total_size_app es1 es2 :
  total_size (es1 ++ es2) = total_size es1 + total_size es2.
Proof.
  induction es1 as [|e es1 IH]; simpl; [reflexivity|].
  rewrite IH. lia.
Qed.

Lemma pass1_line_counted st raw st' :
  counted st -> pass1_line st raw = Ok st' -> counted st'.
Proof.
  intros [Hpc Hall]. unfold pass1_line.
  destruct (_ || _); [now intros [= <-]|].
  destruct (Py.endswith _ _); [now intros [= <-]|].
  destruct (tokenize _) as [|t args]; [now intros [= <-]|].
  intros H. destruct (size (Py.upper t) args) as [n|] eqn:E;
    cbn [rbind] in H; [|discriminate]. injection H as <-.
  split; cbn [pc parsed].
  - rewrite total_size_app. simpl. unfold entry_size. cbn [fst snd].
    rewrite E. lia.
  - apply Forall_app. split; [exact Hall|].
    apply List.Forall_cons; [|apply List.Forall_nil].
    cbn [fst snd]. eauto.
Qed.

Lemma pass1_loop_counted lines : forall st st',
  counted st -> pass1_loop st lines = Ok st' -> counted st'.
Proof.
  induction lines as [|raw lines IH]; simpl; intros st st' Hc H.
  - now injection H as <-.
  - destruct (pass1_line st raw) as [st1|] eqn:E; cbn [rbind] in H;
      [|discriminate].
    eapply IH; [|exact H]. eapply pass1_line_counted; eassumption.
Qed.

Lemma mapM_gen_length (labels : gmap pystr Z) es : forall bss,
  Forall (fun e => exists n, size (snd (fst e)) (snd e) = Ok n) es ->
  (forall e, In e es -> snd (fst e) <> str "DB") ->
  mapM (gen labels) es = Ok bss ->
  Z.of_nat (length (concat bss)) = total_size es.
Proof.
  induction es as [|e es IH]; simpl; intros bss Hall Hdb H.
  - now injection H as <-.
  - destruct (gen labels e) as [bs|] eqn:Eg; cbn [rbind] in H;
      [|discriminate].
    destruct (mapM (gen labels) es) as [bss'|] eqn:Em; cbn [rbind] in H;
      [|discriminate].
    injection H as <-. simpl. rewrite length_app, Nat2Z.inj_add.
    apply Forall_cons in Hall. destruct Hall as [[n Hn] Hall].
    rewrite (IH bss') by auto. f_equal.
    destruct e as [[a op] args]. cbn [fst snd] in *.
    unfold entry_size. cbn [fst snd]. rewrite Hn.
    eapply gen_length; [exact Hn| |exact Eg].
    apply bool_decide_eq_false_2. apply (Hdb (a, op, args)). now left.
Qed.

End Sizes.

(** X6: in a program without [DB], the counter of the first pass is exact:
    when the entries of the first pass go through the second pass, with
    whatever label table, the number of bytes emitted is the counter the
    first pass has reached; so a label line that follows is bound to the
    offset at which it stands in the bytes. *)
Theorem X6_sizes_exact_without_db (lines : list pystr) (st : Asm.pass1_state)
    (labels : gmap pystr Z) (image : list Z) :
  Asm.pass1 lines = Ok st ->
  (forall e, In e (Asm.parsed st) -> snd (fst e) <> str "DB") ->
  Asm.pass2 labels (Asm.parsed st) = Ok image ->
  Z.of_nat (length image) = Asm.pc st /\
  forall raw, label_line raw = true ->
    exists st', Asm.pass1 (lines ++ [raw]) = Ok st' /\
                Asm.labels st' !! label_name raw
                  = Some (Z.of_nat (length image)).
Proof.
  intros H1 Hdb H2.
  assert (Hc : counted st).
  { eapply pass1_loop_counted; [|exact H1].
    split; [reflexivity|apply List.Forall_nil]. }
  destruct Hc as [Hpc Hall].
  assert (Hlen : Z.of_nat (length image) = Asm.pc st).
  { unfold Asm.pass2 in H2.
    destruct (Asm.mapM _ _) as [bss|] eqn:E; cbn [rbind] in H2;
      [|discriminate].
    injection H2 as <-. rewrite Hpc. eapply mapM_gen_length; eassumption. }
  split; [exact Hlen|].
  intros raw Hraw. unfold label_line, skipped in Hraw.
  apply andb_true_iff in Hraw. destruct Hraw as [Hs Hl].
  apply negb_true_iff in Hs.
  eexists. split.
  - unfold Asm.pass1 in *. rewrite pass1_loop_app, H1.
    cbn [rbind Asm.pass1_loop]. unfold Asm.pass1_line.
    rewrite Hs, Hl. reflexivity.
  - cbn [Asm.labels]. rewrite Hlen. apply lookup_insert_eq.
Qed.

(** The theorem at two instructions followed by the label [end]. *)
Lemma X6_sizes_exact_without_db_witness :
  exists st', Asm.pass1 (map str ["LDI A, 7"; "OUT A"; "end:"]%string) = Ok st'
              /\ Asm.labels st' !! str "end" = Some 5.
Proof.
  destruct (X6_sizes_exact_without_db
              (map str ["LDI A, 7"; "OUT A"]%string)
              (Asm.Pass1 ∅ 5 [(0, str "LDI", [str "A"; str "7"]);
                              (3, str "OUT", [str "A"])])
              ∅ [OP_LDI; 0; 7; OP_OUT; 0]) as [_ H].
  - reflexivity.
  - intros e [<-|[<-|[]]]; discriminate.
  - reflexivity.
  - apply (H (str "end:")). reflexivity.
Defined.

Section Literals.

Import Asm.
Local Open Scope result_scope.

Lemma all_chars_complete (P : ascii -> bool) :
  forallb P all_chars = true -> forall c, P c = true.
Proof.
  intros H c. rewrite forallb_forall in H. apply H.
  unfold all_chars. apply in_map_iff. exists (nat_of_ascii c).
  split; [apply ascii_nat_embedding|].
  apply in_seq. pose proof (nat_ascii_bounded c). lia.
Qed.

Lemma assembles_to_true line bs :
  assembles_to line bs = true -> assemble [line] = Ok bs.
Proof.
  unfold assembles_to. destruct (assemble [line]); [|discriminate].
  intros H. apply bool_decide_eq_true_1 in H. now subst.
Qed.

Lemma before_notin x s : ~ In x s -> Py.before x s = s.
Proof.
  intros H. rewrite <- (app_nil_r s) at 1.
  rewrite before_app_notin by assumption. simpl. apply app_nil_r.
Qed.

Lemma split_notin x s : ~ In x s -> Py.split x s = [s].
Proof.
  induction s as [|c s IH]; simpl; intros H; [reflexivity|].
  rewrite bool_decide_eq_false_2 by (intros ->; apply H; now left).
  rewrite IH by (intros ?; apply H; now right). reflexivity.
Qed.

Lemma strip_between a m b :
  Py.isspace a = false -> Py.isspace b = false ->
  Py.strip (a :: m ++ [b]) = a :: m ++ [b].
Proof.
  intros Ha Hb. unfold Py.strip. simpl. rewrite Ha.
  change (a :: m ++ [b]) with ((a :: m) ++ [b]).
  now rewrite rstrip_app_nonspace.
Qed.

Lemma startswith_nil s : Py.startswith s [] = true.
Proof. now destruct s. Qed.

Lemma inner_quoted q body : Py.inner (quoted q body) = body.
Proof. unfold Py.inner, quoted. simpl. apply removelast_last. Qed.

Lemma endswith_last s b x :
  Py.endswith (s ++ [b]) [x] = bool_decide (b = x).
Proof.
  unfold Py.endswith. rewrite rev_app_distr. simpl.
  destruct (rev s); apply andb_true_r.
Qed.

End Literals.

(** X7: a character literal ['c'] as the value operand of [LDI] or as the
    address operand of a jump assembles to the code of [c], for every
    character with a code below 256 but the semicolon, blanks, commas and
    quotes included; with the semicolon the line is cut inside the literal
    and the assembly raises [ValueError].  (Of a character with a code of
    256 or more the source keeps the low 8 bits of the code; such
    characters are outside this statement.) *)
Theorem X7_character_operands (c : ascii) (r : register) :
  c <> ";"%char ->
  Asm.assemble [ldi_char r c] = Ok [OP_LDI; reg_index r; ord c] /\
  Asm.assemble [jmp_char c] = Ok [OP_JMP; ord c] /\
  Asm.assemble [ldi_char r ";"%char]
    = Raise (ValueError (UnknownValue (str "'"))).
Proof.
  intros Hc.
  assert (H : forall x,
    (bool_decide (x = ";"%char) || char_operand_ok x) = true).
  { apply all_chars_complete. vm_compute. reflexivity. }
  specialize (H c). rewrite bool_decide_eq_false_2 in H by exact Hc.
  simpl in H. unfold char_operand_ok in H.
  apply andb_true_iff in H. destruct H as [H H3].
  apply andb_true_iff in H. destruct H as [H1 H2].
  apply assembles_to_true in H1, H2, H3.
  split; [destruct r; assumption|]. split; [assumption|].
  destruct r; vm_compute; reflexivity.
Qed.

(** The theorem at the comma. *)
Lemma X7_character_operands_witness :
  Asm.assemble [ldi_char B ","%char] = Ok [OP_LDI; 1; 44].
Proof.
  apply (X7_character_operands ","%char B). discriminate.
Defined.

Section DbString.

Import Asm.
Local Open Scope result_scope.

Lemma tokenize_db_string body :
  ~ In dquote body -> ~ In ";"%char body ->
  tokenize (str "DB " ++ quoted dquote body)
    = [str "DB"; quoted dquote body].
Proof.
  intros Hq Hs. unfold tokenize.
  rewrite before_notin.
  2:{ unfold quoted. simpl. rewrite in_app_iff. simpl.
      intuition discriminate. }
  change (str "DB " ++ quoted dquote body)
    with ("D"%char :: (str "B " ++ dquote :: body) ++ [dquote]).
  rewrite strip_between by reflexivity.
  change ("D"%char :: (str "B " ++ dquote :: body) ++ [dquote])
    with (str "DB " ++ quoted dquote body).
  change (str "DB " ++ quoted dquote body)
    with ("D"%char :: (str "B " ++ quoted dquote body)) at 1.
  cbv iota.
  change ("D"%char :: str "B " ++ quoted dquote body)
    with (str "DB " ++ quoted dquote body).
  rewrite fold_left_app.
  change (fold_left scan (str "DB ") scan_start)
    with (Scanner [str "DB"] [] false []).
  rewrite scan_quoted by (reflexivity || assumption).
  reflexivity.
Qed.

Lemma db_token_string (labels : gmap pystr Z) body :
  db_token labels (quoted dquote body) = Ok (map ord body).
Proof.
  unfold db_token, quoted.
  rewrite strip_between by reflexivity.
  change (dquote :: body ++ [dquote]) with ((dquote :: body) ++ [dquote]).
  rewrite endswith_last.
  change ((dquote :: body) ++ [dquote]) with (quoted dquote body).
  rewrite inner_quoted.
  change (Py.startswith (quoted dquote body) [dquote])
    with (bool_decide (dquote = dquote)
          && Py.startswith (body ++ [dquote]) []).
  rewrite startswith_nil, bool_decide_eq_true_2 by reflexivity.
  cbn [andb]. f_equal. apply map_ext. intros c. apply land_byte, ord_is_byte.
Qed.

End DbString.

(** X8: a string literal after [DB] whose characters all have a code
    below 256 expands to one byte per character, the code of each, blanks
    included, when the string holds no double quote, no semicolon and no
    comma.  (Of a character with a code of 256 or more the source keeps
    the low 8 bits of the code; such strings are outside this
    statement.) *)
Theorem X8_db_string_literal (body : pystr) :
  ~ In Asm.dquote body ->
  ~ In ";"%char body ->
  ~ In ","%char body ->
  Asm.assemble [str "DB " ++ quoted Asm.dquote body] = Ok (map ord body).
Proof.
  intros Hq Hs Hc.
  assert (Hline : Py.strip (str "DB " ++ quoted Asm.dquote body)
                  = str "DB " ++ quoted Asm.dquote body).
  { change (str "DB " ++ quoted Asm.dquote body)
      with ("D"%char :: (str "B " ++ Asm.dquote :: body) ++ [Asm.dquote]).
    now rewrite strip_between. }
  unfold Asm.assemble, Asm.pass1. cbn [Asm.pass1_loop].
  unfold Asm.pass1_line. rewrite Hline.
  change (Py.eqs (str "DB " ++ quoted Asm.dquote body) []
          || Py.startswith (str "DB " ++ quoted Asm.dquote body) (str ";"))
    with false.
  cbv iota.
  change (str "DB " ++ quoted Asm.dquote body)
    with ((str "DB " ++ Asm.dquote :: body) ++ [Asm.dquote]) at 1.
  change (str ":") with [":"%char].
  rewrite endswith_last.
  change (bool_decide (Asm.dquote = ":"%char)) with false. cbv iota.
  rewrite tokenize_db_string by assumption.
  change (Py.upper (str "DB")) with (str "DB").
  change (Asm.size (str "DB") [quoted Asm.dquote body])
    with (@Ok Z (Z.of_nat (length (Py.split ","%char
                    (Py.join (str " ") [quoted Asm.dquote body]))))).
  cbn [rbind Asm.labels Asm.parsed Asm.pc app]. unfold Asm.pass2.
  cbn [Asm.mapM].
  assert (Hgen : Asm.gen ∅ (0, str "DB", [quoted Asm.dquote body])
                 = Ok (map ord body)).
  { change (Asm.gen ∅ (0, str "DB", [quoted Asm.dquote body]))
      with (rbind (Asm.mapM (Asm.db_token ∅)
              (concat [filter (fun x => x <> [])
                         (Py.split ","%char (quoted Asm.dquote body))]))
              (fun bs => Ok (concat bs))).
    rewrite split_notin.
    2:{ unfold quoted. simpl. rewrite in_app_iff. simpl.
        intuition discriminate. }
    change (concat [filter (fun x => x <> []) [quoted Asm.dquote body]])
      with [quoted Asm.dquote body].
    cbn [Asm.mapM]. rewrite db_token_string. cbn [rbind concat].
    now rewrite app_nil_r. }
  rewrite Hgen. cbn [rbind concat]. now rewrite app_nil_r.
Qed.

(** The theorem at a string with a blank and a single quote. *)
Lemma X8_db_string_literal_witness :
  Asm.assemble [str "DB " ++ quoted Asm.dquote (str "it's ok")]
    = Ok [105; 116; 39; 115; 32; 111; 107].
Proof.
  apply (X8_db_string_literal (str "it's ok"));
    vm_compute; intuition discriminate.
Defined.

Section Decimals.

Import Asm.
Local Open Scope result_scope.

Lemma digits_of_string d :
  str (DecimalString.NilEmpty.string_of_uint d) = digits_of d.
Proof. induction d; simpl; unfold str in *; simpl; congruence. Qed.

(** One digit read by [Py.digits]. *)
Ltac digit_step :=
  lazymatch goal with
  | |- Py.digits 10 ?acc ?b (?c :: ?s) = _ =>
      let k := eval vm_compute in (ord c - 48) in
      change (Py.digits 10 acc b (c :: s))
        with (Py.digits 10 (acc * 10 + k) true s)
  end.

Lemma digits_acc d : forall p,
  Py.digits 10 (Z.pos p) true (digits_of d)
    = Some (Z.pos (Pos.of_uint_acc d p)).
Proof.
  induction d; intros p; cbn [digits_of Pos.of_uint_acc];
    [reflexivity|..]; digit_step;
    match goal with
    | |- Py.digits 10 ?acc true _ = Some (Z.pos (Pos.of_uint_acc _ ?q)) =>
        replace acc with (Z.pos q) by lia
    end; apply IHd.
Qed.

Lemma digits_zero d : forall b,
  d <> Decimal.Nil \/ b = true ->
  Py.digits 10 0 b (digits_of d) = Some (Z.of_N (Pos.of_uint d)).
Proof.
  induction d; intros b Hb; cbn [digits_of Pos.of_uint].
  - destruct Hb as [Hb| ->]; [congruence|reflexivity].
  - digit_step. change (0 * 10 + 0) with 0. apply IHd. now right.
  - digit_step. apply digits_acc.
  - digit_step. apply digits_acc.
  - digit_step. apply digits_acc.
  - digit_step. apply digits_acc.
  - digit_step. apply digits_acc.
  - digit_step. apply digits_acc.
  - digit_step. apply digits_acc.
  - digit_step. apply digits_acc.
  - digit_step. apply digits_acc.
Qed.

Lemma digits_plain d :
  Forall (fun c => Py.isspace c = false /\ Py.isdigit_char c = true)
         (digits_of d).
Proof.
  induction d; cbn [digits_of]; [apply List.Forall_nil|..];
    (apply List.Forall_cons; [split; reflexivity|exact IHd]).
Qed.

Lemma lstrip_plain s :
  (forall c, In c s -> Py.isspace c = false) -> Py.lstrip s = s.
Proof.
  destruct s as [|c s]; [reflexivity|]. intros H. simpl.
  now rewrite (H c) by now left.
Qed.

Lemma strip_plain s :
  (forall c, In c s -> Py.isspace c = false) -> Py.strip s = s.
Proof.
  intros H. unfold Py.strip, Py.rstrip.
  rewrite (lstrip_plain s H), lstrip_plain, rev_involutive; [reflexivity|].
  intros c Hc. apply H. now apply in_rev.
Qed.

Lemma digits_no_space d c : In c (digits_of d) -> Py.isspace c = false.
Proof.
  intros H. pose proof (digits_plain d) as Hp.
  rewrite Forall_forall in Hp. apply Hp. now apply list_elem_of_In.
Qed.

Lemma isdigit_digits d : d <> Decimal.Nil -> Py.isdigit (digits_of d) = true.
Proof.
  intros Hd. unfold Py.isdigit.
  destruct (digits_of d) eqn:E; [destruct d; simpl in E; congruence|].
  rewrite <- E. apply forallb_forall. intros c Hc.
  pose proof (digits_plain d) as Hp. rewrite Forall_forall in Hp.
  apply Hp. now apply list_elem_of_In.
Qed.

(** [int] of a numeral, and of a numeral after a minus sign. *)
Lemma int_digits d :
  d <> Decimal.Nil ->
  Py.int (digits_of d) 10 = Ok (Z.of_N (Pos.of_uint d)) /\
  Py.int ("-"%char :: digits_of d) 10 = Ok (- Z.of_N (Pos.of_uint d)).
Proof.
  intros Hd. unfold Py.int.
  rewrite (strip_plain (digits_of d)) by apply digits_no_space.
  rewrite (strip_plain ("-"%char :: digits_of d))
    by (intros c [<-|Hc]; [reflexivity|now apply digits_no_space in Hc]).
  pose proof (digits_zero d false (or_introl Hd)) as Hz.
  split.
  - destruct d; try congruence; cbn [digits_of] in *;
      cbv beta iota zeta; change (10 =? 16) with false; cbn [andb];
      rewrite Hz; f_equal; try lia.
  - cbv beta iota zeta. change (10 =? 16) with false. cbn [andb].
    rewrite Hz. f_equal; try lia.
Qed.

Lemma parse_value_digits (labels : gmap pystr Z) d :
  d <> Decimal.Nil ->
  parse_value (digits_of d) labels = Ok (Z.of_N (Pos.of_uint d) mod 256) /\
  parse_value ("-"%char :: digits_of d) labels
    = Ok ((- Z.of_N (Pos.of_uint d)) mod 256).
Proof.
  intros Hd. destruct (int_digits d Hd) as [Hpos Hneg].
  pose proof (isdigit_digits d Hd) as Hdig.
  unfold parse_value.
  rewrite (strip_plain (digits_of d)) by apply digits_no_space.
  rewrite (strip_plain ("-"%char :: digits_of d))
    by (intros c [<-|Hc]; [reflexivity|now apply digits_no_space in Hc]).
  split.
  - rewrite Hpos, Hdig. cbn [rbind]. rewrite land_mod.
    assert (H1 : Py.startswith (digits_of d) (str "'") = false)
      by (destruct d; reflexivity).
    assert (H2 : Py.startswith (digits_of d) (str "0x") = false)
      by (destruct d as [|d| | | | | | | | |]; try reflexivity;
          destruct d; reflexivity).
    rewrite H1, H2. reflexivity.
  - rewrite Hneg. cbn [tail]. rewrite Hdig. cbn [rbind]. rewrite land_mod.
    change (Py.startswith ("-"%char :: digits_of d) (str "'")) with false.
    change (Py.startswith ("-"%char :: digits_of d) (str "0x")) with false.
    change (Py.isdigit ("-"%char :: digits_of d)) with false.
    change (Py.startswith ("-"%char :: digits_of d) (str "-"))
      with (Py.startswith (digits_of d) []).
    rewrite startswith_nil. reflexivity.
Qed.

End Decimals.

(** X9: for every natural number [n] below 10^4300 (the size up to which
    Python's [int] reads a decimal string), the decimal numeral of [n] as
    an operand token resolves to [n] modulo 256, and the numeral after a
    minus sign to [-n] modulo 256, whatever the label table holds. *)
Theorem X9_decimal_tokens (labels : gmap pystr Z) (n : N) :
  (n < 10 ^ 4300)%N ->
  Asm.parse_value (literal Decimal (Z.of_N n)) labels
    = Ok (Z.of_N n mod 256) /\
  Asm.parse_value ("-"%char :: literal Decimal (Z.of_N n)) labels
    = Ok ((- Z.of_N n) mod 256).
Proof.
  intros _. unfold literal. rewrite N2Z.id.
  pose proof (DecimalN.Unsigned.of_to n) as Hn. unfold N.of_uint in Hn.
  unfold DecimalString.NilZero.string_of_uint.
  destruct (N.to_uint n) as [|d|d|d|d|d|d|d|d|d|d] eqn:E;
    [simpl in Hn; subst n; split; reflexivity|..];
    rewrite digits_of_string, <- Hn;
    apply parse_value_digits; discriminate.
Qed.

(** The theorem at 1000 and -1000. *)
Lemma X9_decimal_tokens_witness :
  Asm.parse_value (str "1000") ∅ = Ok 232 /\
  Asm.parse_value (str "-1000") ∅ = Ok 24.
Proof.
  apply (X9_decimal_tokens ∅ 1000). reflexivity.
Defined.

Section Operands.

Import Asm.
Local Open Scope result_scope.

Lemma lstrip_idem s : Py.lstrip (Py.lstrip s) = Py.lstrip s.
Proof.
  induction s as [|c s IH]; simpl; [reflexivity|].
  destruct (Py.isspace c) eqn:E; [exact IH|]. simpl. now rewrite E.
Qed.

Lemma lstrip_shape s :
  Py.lstrip s = [] \/
  exists a m, Py.lstrip s = a :: m /\ Py.isspace a = false.
Proof.
  induction s as [|c s IH]; simpl; [now left|].
  destruct (Py.isspace c) eqn:E; [exact IH|]. right. eauto.
Qed.

Lemma rstrip_idem s : Py.rstrip (Py.rstrip s) = Py.rstrip s.
Proof. unfold Py.rstrip. now rewrite rev_involutive, lstrip_idem. Qed.

(** Stripping twice is stripping once. *)
Lemma strip_idem s : Py.strip (Py.strip s) = Py.strip s.
Proof.
  unfold Py.strip at 2. unfold Py.strip.
  destruct (lstrip_shape s) as [->|(a & m & -> & Ha)]; [reflexivity|].
  change (a :: m) with ([] ++ a :: m) at 1 2.
  rewrite !rstrip_app_nonspace by assumption. cbn [app Py.lstrip].
  rewrite Ha.
  change (a :: Py.rstrip m) with ([] ++ a :: Py.rstrip m).
  rewrite rstrip_app_nonspace by assumption. cbn [app].
  now rewrite rstrip_idem.
Qed.

Lemma mapM_raise {X Y} (f : X -> result Y) l1 a l2 bs e :
  mapM f l1 = Ok bs -> f a = Raise e ->
  mapM f (l1 ++ a :: l2) = Raise e.
Proof.
  intros H1 Ha. rewrite mapM_app, H1. cbn [rbind mapM].
  now rewrite Ha.
Qed.

Lemma gen_jump_unresolved (labels : gmap pystr Z) a o tok rest :
  In o (map str ["JMP"; "JZ"; "JNZ"]%string) ->
  is_label_ref (Py.strip tok) = true ->
  labels !! Py.strip tok = None ->
  gen labels (a, o, tok :: rest)
    = Raise (ValueError (UnknownValue (Py.strip tok))).
Proof.
  intros Hin Href Hnone.
  assert (Hp : parse_value (Py.strip tok) labels
               = Raise (ValueError (UnknownValue (Py.strip tok)))).
  { unfold parse_value. rewrite strip_idem.
    unfold is_label_ref in Href.
    apply andb_true_iff in Href. destruct Href as [Href H3].
    apply andb_true_iff in Href. destruct Href as [H1 H2].
    apply negb_true_iff in H1, H2, H3.
    now rewrite H1, H2, H3, Hnone. }
  simpl in Hin. destruct Hin as [<-|[<-|[<-|[]]]];
    match goal with
    | |- gen _ (_, ?o, _) = _ =>
        change (gen labels (a, o, tok :: rest))
          with (let! opc := OP o in
                let! v := parse_value (Py.strip tok) labels in
                Ok [opc; Z.land v 0xFF])
    end;
    rewrite Hp; reflexivity.
Qed.

End Operands.

(** X10: a jump whose operand is no literal and names no label of the
    program makes the assembly raise [ValueError] ("Unknown value") for
    that token: here for a jump on the last line, after lines that
    assemble. *)
Theorem X10_undefined_label (lines : list pystr) (st : Asm.pass1_state)
    (image : list Z) (raw t tok : pystr) (rest : list pystr) :
  Asm.pass1 lines = Ok st ->
  Asm.pass2 (Asm.labels st) (Asm.parsed st) = Ok image ->
  instruction_line raw t (tok :: rest) ->
  In (Py.upper t) (map str ["JMP"; "JZ"; "JNZ"]%string) ->
  is_label_ref (Py.strip tok) = true ->
  Asm.labels st !! Py.strip tok = None ->
  Asm.assemble (lines ++ [raw])
    = Raise (ValueError (UnknownValue (Py.strip tok))).
Proof.
  intros H1 H2 (Hs & Hl & Ht) Hop Href Hnone.
  unfold Asm.assemble, Asm.pass1 in *.
  rewrite pass1_loop_app, H1. cbn [rbind Asm.pass1_loop].
  unfold skipped in Hs. unfold Asm.pass1_line. rewrite Hs, Hl, Ht.
  assert (Hsize : Asm.size (Py.upper t) (tok :: rest) = Ok 2).
  { simpl in Hop. destruct Hop as [<-|[<-|[<-|[]]]]; reflexivity. }
  rewrite Hsize. cbn [rbind Asm.labels Asm.parsed].
  unfold Asm.pass2 in *.
  destruct (Asm.mapM _ (Asm.parsed st)) as [bs|] eqn:E;
    cbn [rbind] in H2; [|discriminate].
  erewrite mapM_raise; [reflexivity|exact E|].
  now apply gen_jump_unresolved.
Qed.

(** The theorem at a jump to [nowhere]. *)
Lemma X10_undefined_label_witness :
  Asm.assemble (map str ["here:"; "NOP"; "JMP nowhere"]%string)
    = Raise (ValueError (UnknownValue (str "nowhere"))).
Proof.
  apply (X10_undefined_label (map str ["here:"; "NOP"]%string)
           (Asm.Pass1 (<[str "here" := 0]> ∅) 1 [(0, str "NOP", [])])
           [OP_NOP] (str "JMP nowhere") (str "JMP") (str "nowhere") []).
  - reflexivity.
  - reflexivity.
  - repeat split; reflexivity.
  - left. reflexivity.
  - reflexivity.
  - vm_compute. reflexivity.
Defined.

Lemma get_0 {X} (x : X) l : Py.get (x :: l) 0 = Ok x.
Proof.
  rewrite (get_in_range _ _ (S (length l))); [reflexivity|reflexivity|lia].
Qed.

Lemma get_1 {X} (x y : X) l : Py.get (x :: y :: l) 1 = Ok y.
Proof.
  rewrite (get_in_range _ _ (S (S (length l))));
    [reflexivity|reflexivity|lia].
Qed.

(** One mnemonic of the case analysis of the operand count. *)
Ltac count_operands args :=
  match goal with
  | |- context [arity ?o] =>
      let n := eval vm_compute in (arity o) in change (arity o) with n
  end;
  destruct args as [|? [|? ?]]; cbn [take length];
  (split;
   [unfold Asm.gen; rewrite ?get_0, ?get_1; reflexivity
   |let H := fresh in intros H; try lia; reflexivity]).

(** X11: the second pass reads only as many operands as the instruction
    has (two for [LDI], [MOV], [STR], [ADD], [SUB], one for the jumps,
    [OUT] and [IN], none for [NOP] and [HLT]): operands beyond them are
    ignored without a word, and when there are fewer the assembly raises
    [IndexError], before it looks at any operand it has. *)
Theorem X11_operand_count (labels : gmap pystr Z) (a : Z) (op : pystr)
    (args : list pystr) :
  In op (map str instructions) ->
  Asm.gen labels (a, op, args) = Asm.gen labels (a, op, take (arity op) args)
  /\ ((length args < arity op)%nat ->
      Asm.gen labels (a, op, args) = Raise IndexError).
Proof.
  intros Hin. unfold instructions in Hin. simpl in Hin.
  repeat (destruct Hin as [<-|Hin]; [count_operands args|]).
  destruct Hin.
Qed.

(** The theorem at [LDI] with one operand and with three. *)
Lemma X11_operand_count_witness :
  Asm.gen ∅ (0, str "LDI", [str "X"]) = Raise IndexError /\
  Asm.gen ∅ (0, str "LDI", [str "A"; str "7"; str "8"]) = Ok [OP_LDI; 0; 7].
Proof.
  split.
  - apply (X11_operand_count ∅ 0 (str "LDI") [str "X"]).
    + left. reflexivity.
    + vm_compute. lia.
  - rewrite (proj1 (X11_operand_count ∅ 0 (str "LDI")
                      [str "A"; str "7"; str "8"]
                      (or_introl eq_refl))).
    reflexivity.
Defined.

(** X12: when the register operand of [LDI], [MOV], [STR], [ADD] or [SUB]
    (stripped, its trailing commas removed, in upper case) is neither [A]
    nor [B], the assembly raises [KeyError] for it, whatever the second
    operand is; the same holds for the operand of [OUT] and [IN], whose
    commas are not removed. *)
Theorem X12_unknown_register (labels : gmap pystr Z) (a : Z)
    (op r v : pystr) (rest : list pystr) :
  (In op (map str ["LDI"; "MOV"; "STR"; "ADD"; "SUB"]%string) ->
   ~ In (Asm.reg_operand r) (map str ["A"; "B"]%string) ->
   Asm.gen labels (a, op, r :: v :: rest)
     = Raise (KeyError (Asm.reg_operand r))) /\
  (In op (map str ["OUT"; "IN"]%string) ->
   ~ In (Py.upper (Py.strip r)) (map str ["A"; "B"]%string) ->
   Asm.gen labels (a, op, r :: rest)
     = Raise (KeyError (Py.upper (Py.strip r)))).
Proof.
  assert (Hregs : forall x, ~ In x (map str ["A"; "B"]%string) ->
                            Asm.REGS x = Raise (KeyError x)).
  { intros x Hx. unfold Asm.REGS, Py.eqs.
    rewrite !bool_decide_eq_false_2; [reflexivity| |];
      intros ->; apply Hx; simpl; tauto. }
  split; intros Hin Hr; apply Hregs in Hr; simpl in Hin.
  - destruct Hin as [<-|[<-|[<-|[<-|[<-|[]]]]]];
      unfold Asm.gen; rewrite get_0, get_1;
      cbv beta iota zeta; cbn [rbind];
      match goal with
      | |- context [Asm.REGS ?x] => change (Asm.REGS x)
                                      with (Asm.REGS (Asm.reg_operand r))
      end;
      rewrite Hr; reflexivity.
  - destruct Hin as [<-|[<-|[]]]; unfold Asm.gen; rewrite get_0;
      cbv beta iota zeta; cbn [rbind];
      match goal with
      | |- context [Asm.REGS ?x] => change (Asm.REGS x)
                                      with (Asm.REGS (Py.upper (Py.strip r)))
      end;
      rewrite Hr; reflexivity.
Qed.

(** The theorem at the register names [C] and [AB]. *)
Lemma X12_unknown_register_witness :
  Asm.gen ∅ (0, str "MOV", [str "c,"; str "??"])
    = Raise (KeyError (str "C")) /\
  Asm.gen ∅ (0, str "OUT", [str "ab"]) = Raise (KeyError (str "AB")).
Proof.
  split.
  - apply (proj1 (X12_unknown_register ∅ 0 (str "MOV") (str "c,") (str "??")
                    [])).
    + right. left. reflexivity.
    + vm_compute. intuition discriminate.
  - apply (proj2 (X12_unknown_register ∅ 0 (str "OUT") (str "ab") [] [])).
    + left. reflexivity.
    + vm_compute. intuition discriminate.
Defined.

Lemma OP_table m y : OP m = Ok y -> In (m, y) op_table.
Proof.
  unfold OP, Py.eqs.
  repeat match goal with
  | |- context [bool_decide (m = ?n)] =>
      destruct (bool_decide_reflect (m = n));
        [subst m; intros [= <-]; vm_compute; tauto|]
  end.
  discriminate.
Qed.

(** X13: the opcode table gives two different mnemonics two different
    bytes: a byte decodes to at most one instruction. *)
Theorem X13_opcodes_distinct (m1 m2 : pystr) (x : Z) :
  OP m1 = Ok x -> OP m2 = Ok x -> m1 = m2.
Proof.
  intros H1 H2. apply OP_table in H1, H2. vm_compute in H1, H2.
  repeat (destruct H1 as [H1|H1]; [injection H1 as <- <-|]);
    try destruct H1;
    repeat (destruct H2 as [H2|H2];
            [first [discriminate H2 | injection H2 as <-; reflexivity]|]);
    destruct H2.
Qed.

(** The theorem at the byte 0x31. *)
Lemma X13_opcodes_distinct_witness : str "JZ" = str "JZ".
Proof.
  apply (X13_opcodes_distinct (str "JZ") (str "JZ") 0x31); reflexivity.
Defined.

Section BothWays.

Import Asm.
Local Open Scope result_scope.

Lemma pass1_both_ways n :
  pass1 (both_ways n)
    = Ok (Pass1 (<[str "far" := 2 + Z.of_nat n]> ∅) (2 + Z.of_nat n + 2)
            (((0, str "JMP", [str "far"]) :: nops 2 n)
             ++ [(2 + Z.of_nat n, str "JMP", [str "far"])])).
Proof.
  unfold pass1, both_ways. cbn [pass1_loop].
  change (pass1_line (Pass1 ∅ 0 []) (str "JMP far"))
    with (Ok (Pass1 ∅ 2 [(0, str "JMP", [str "far"])])).
  cbn [rbind]. rewrite pass1_nops. reflexivity.
Qed.

End BothWays.

(** X14: a jump to a label that is defined further down and a jump to the
    same label from below it get the same operand byte, the address of the
    label modulo 256, whatever the distance. *)
Theorem X14_forward_and_backward (n : nat) :
  Asm.assemble (both_ways n)
    = Ok ([OP_JMP; (2 + Z.of_nat n) mod 256] ++ repeat OP_NOP n
          ++ [OP_JMP; (2 + Z.of_nat n) mod 256]).
Proof.
  unfold Asm.assemble. rewrite pass1_both_ways.
  cbn [rbind Asm.labels Asm.parsed]. unfold Asm.pass2.
  assert (Hj : forall a,
    Asm.gen (<[str "far" := 2 + Z.of_nat n]> ∅) (a, str "JMP", [str "far"])
      = Ok [OP_JMP; (2 + Z.of_nat n) mod 256]).
  { intros a. apply gen_jump; [left; reflexivity|reflexivity|].
    apply parse_value_label; [reflexivity|reflexivity|].
    apply lookup_insert_eq. }
  rewrite mapM_app. cbn [Asm.mapM]. rewrite !Hj, mapM_nops.
  cbn [rbind]. rewrite concat_app. cbn [concat].
  rewrite concat_repeat_singleton, app_nil_r. reflexivity.
Qed.

(** ** Further properties of the emulator *)

Section LoadMore.

Import Emu.

Lemma mod_shift_ne x d :
  0 < d < 256 -> (x + d) mod 256 <> x mod 256.
Proof.
  intros Hd E.
  assert (H : (x + d - x) mod 256 = 0)
    by (rewrite Zminus_mod, E, Z.sub_diag; reflexivity).
  replace (x + d - x) with d in H by lia.
  rewrite Z.mod_small in H by lia. lia.
Qed.

(** The stores of [load_bin] leave alone the cells they do not address. *)
Lemma stored_untouched data : forall l addr i (j : nat),
  (forall k, (k < length data)%nat ->
             Z.to_nat ((addr + (i + Z.of_nat k)) mod 256) <> j) ->
  stored l addr i data !! j = l !! j.
Proof.
  induction data as [|b data IH]; intros l addr i j H; simpl;
    [reflexivity|].
  rewrite IH.
  - apply list_lookup_insert_ne.
    specialize (H 0%nat). simpl in H. rewrite Z.add_0_r in H.
    apply H. lia.
  - intros k Hk. specialize (H (S k)).
    replace (i + 1 + Z.of_nat k) with (i + Z.of_nat (S k)) by lia.
    apply H. simpl. lia.
Qed.

(** A byte of the data that none of the later bytes overwrites is in its
    cell. *)
Lemma stored_last data : forall l addr i (k : nat) b,
  length l = 256%nat ->
  data !! k = Some b ->
  (length data <= k + 256)%nat ->
  stored l addr i data !! Z.to_nat ((addr + (i + Z.of_nat k)) mod 256)
    = Some (Z.land b 0xFF).
Proof.
  induction data as [|b' data IH]; intros l addr i k b Hl Hk Hlen;
    [discriminate|].
  simpl. simpl length in Hlen. destruct k as [|k]; simpl in Hk.
  - injection Hk as ->. rewrite stored_untouched.
    + simpl. rewrite Z.add_0_r. apply list_lookup_insert_eq.
      pose proof (Z.mod_pos_bound (addr + i) 256). lia.
    + intros k Hk E. apply Z2Nat.inj in E;
        try (apply Z.mod_pos_bound; lia).
      simpl in E. rewrite Z.add_0_r in E.
      replace (addr + (i + 1 + Z.of_nat k))
        with (addr + i + (1 + Z.of_nat k)) in E by lia.
      apply mod_shift_ne in E; [exact E|lia].
  - replace (i + Z.of_nat (S k)) with (i + 1 + Z.of_nat k) by lia.
    apply IH; [now rewrite length_insert|exact Hk|lia].
Qed.

End LoadMore.

(** X15: [load_bin] puts byte [i] of the data, reduced modulo 256, at
    address [(addr + i) mod 256], for any base address, also a negative
    one; when the data are longer than the RAM the last 256 bytes are the
    ones that stay.  The cells the data do not reach, the registers, the
    program counter, the flag and the input and output are unchanged. *)
Theorem X15_load_bin_stores (w : Emu.world) (data : list Z) (addr : Z) :
  wf (Emu.cpu w) ->
  exists ram',
    Emu.load_bin data addr w
      = (Ok tt, Emu.World (Emu.with_ram ram' (Emu.cpu w))
                          (Emu.stdin w) (Emu.stdout w)) /\
    (forall (i : nat) b,
       data !! i = Some b -> (length data <= i + 256)%nat ->
       peek (Emu.with_ram ram' (Emu.cpu w)) ((addr + Z.of_nat i) mod 256)
         = b mod 256) /\
    (forall j, is_byte j ->
       (forall i, (i < length data)%nat -> (addr + Z.of_nat i) mod 256 <> j) ->
       peek (Emu.with_ram ram' (Emu.cpu w)) j = peek (Emu.cpu w) j).
Proof.
  intros Hwf. pose proof (wf_ram_len _ Hwf) as Hl.
  exists (stored (Emu.ram (Emu.cpu w)) addr 0 data).
  split; [apply load_loop_stored, Hl|]. split.
  - intros i b Hi Hlen. unfold peek. cbn [Emu.ram Emu.with_ram].
    replace (addr + Z.of_nat i) with (addr + (0 + Z.of_nat i)) by lia.
    rewrite (stored_last data _ addr 0 i b) by assumption.
    apply land_mod.
  - intros j Hj Hout. unfold peek. cbn [Emu.ram Emu.with_ram].
    rewrite stored_untouched; [reflexivity|].
    intros k Hk E. apply (Hout k Hk). rewrite Z.add_0_l in E.
    unfold is_byte in Hj. apply Z2Nat.inj; [|lia|exact E].
    apply Z.mod_pos_bound. lia.
Qed.

(** The theorem at three bytes loaded at address 255. *)
Lemma X15_load_bin_stores_witness :
  exists ram',
    Emu.load_bin [0x141; 2; 3] 255 fresh
      = (Ok tt, Emu.World (Emu.with_ram ram' Emu.init) [] []) /\
    peek (Emu.with_ram ram' Emu.init) 255 = 0x41 /\
    peek (Emu.with_ram ram' Emu.init) 1 = 3.
Proof.
  destruct (X15_load_bin_stores fresh [0x141; 2; 3] 255 wf_init)
    as (ram' & E & Hin & _).
  exists ram'. split; [exact E|]. split.
  - apply (Hin 0%nat 0x141); [reflexivity|simpl; lia].
  - apply (Hin 2%nat 3); [reflexivity|simpl; lia].
Defined.

(** The analysis of one step by the byte at the program counter and the
    range of the register operand bytes: in each case the step is
    rewritten to its outcome and [tac] is run, the equation of the opcode
    being in the context. *)
Ltac each_step w Hwf tac tac_unknown :=
  let H1 := fresh "Hb1" in
  let H2 := fresh "Hb2" in
  pose proof (wf_peek (Emu.cpu w) ((Emu.pc (Emu.cpu w) + 1) mod 256) Hwf)
    as H1;
  pose proof (wf_peek (Emu.cpu w) ((Emu.pc (Emu.cpu w) + 2) mod 256) Hwf)
    as H2;
  unfold is_byte in H1, H2;
  destruct (Z.eq_dec (peek (Emu.cpu w) (Emu.pc (Emu.cpu w))) OP_NOP);
    [rewrite step_NOP by assumption; tac|];
  destruct (Z.eq_dec (peek (Emu.cpu w) (Emu.pc (Emu.cpu w))) OP_HLT);
    [rewrite step_HLT by assumption; tac|];
  destruct (Z.eq_dec (peek (Emu.cpu w) (Emu.pc (Emu.cpu w))) OP_JMP);
    [rewrite step_JMP by assumption; tac|];
  destruct (Z.eq_dec (peek (Emu.cpu w) (Emu.pc (Emu.cpu w))) OP_JZ);
    [rewrite step_JZ by assumption; tac|];
  destruct (Z.eq_dec (peek (Emu.cpu w) (Emu.pc (Emu.cpu w))) OP_JNZ);
    [rewrite step_JNZ by assumption; tac|];
  destruct (Z.eq_dec (peek (Emu.cpu w) (Emu.pc (Emu.cpu w))) OP_LDI);
    [destruct (Z_lt_le_dec
                 (peek (Emu.cpu w) ((Emu.pc (Emu.cpu w) + 1) mod 256)) 2);
     [rewrite step_LDI by (assumption || lia)
     |rewrite step_LDI_above by assumption]; tac|];
  destruct (Z.eq_dec (peek (Emu.cpu w) (Emu.pc (Emu.cpu w))) OP_MOV);
    [destruct (Z_lt_le_dec
                 (peek (Emu.cpu w) ((Emu.pc (Emu.cpu w) + 1) mod 256)) 2);
     [rewrite step_MOV by (assumption || lia)
     |rewrite step_MOV_above by assumption]; tac|];
  destruct (Z.eq_dec (peek (Emu.cpu w) (Emu.pc (Emu.cpu w))) OP_STR);
    [destruct (Z_lt_le_dec
                 (peek (Emu.cpu w) ((Emu.pc (Emu.cpu w) + 1) mod 256)) 2);
     [rewrite step_STR by (assumption || lia)
     |rewrite step_STR_above by assumption]; tac|];
  destruct (Z.eq_dec (peek (Emu.cpu w) (Emu.pc (Emu.cpu w))) OP_OUT);
    [destruct (Z_lt_le_dec
                 (peek (Emu.cpu w) ((Emu.pc (Emu.cpu w) + 1) mod 256)) 2);
     [rewrite step_OUT by (assumption || lia)
     |rewrite step_OUT_above by assumption]; tac|];
  destruct (Z.eq_dec (peek (Emu.cpu w) (Emu.pc (Emu.cpu w))) OP_IN);
    [destruct (Z_lt_le_dec
                 (peek (Emu.cpu w) ((Emu.pc (Emu.cpu w) + 1) mod 256)) 2);
     [rewrite step_IN by (assumption || lia)
     |rewrite step_IN_above by assumption]; tac|];
  destruct (Z.eq_dec (peek (Emu.cpu w) (Emu.pc (Emu.cpu w))) OP_ADD);
    [destruct (Z_lt_le_dec
                 (peek (Emu.cpu w) ((Emu.pc (Emu.cpu w) + 1) mod 256)) 2);
     [destruct (Z_lt_le_dec
                  (peek (Emu.cpu w) ((Emu.pc (Emu.cpu w) + 2) mod 256)) 2);
      [rewrite step_ADD by (assumption || lia)
      |rewrite step_ADD_above by (assumption || lia)]
     |rewrite step_ADD_above by (assumption || lia)]; tac|];
  destruct (Z.eq_dec (peek (Emu.cpu w) (Emu.pc (Emu.cpu w))) OP_SUB);
    [destruct (Z_lt_le_dec
                 (peek (Emu.cpu w) ((Emu.pc (Emu.cpu w) + 1) mod 256)) 2);
     [destruct (Z_lt_le_dec
                  (peek (Emu.cpu w) ((Emu.pc (Emu.cpu w) + 2) mod 256)) 2);
      [rewrite step_SUB by (assumption || lia)
      |rewrite step_SUB_above by (assumption || lia)]
     |rewrite step_SUB_above by (assumption || lia)]; tac|];
  rewrite step_unknown
    by (try assumption; unfold opcodes; simpl; intuition congruence);
  tac_unknown.

(** Close one case of the frame of a step. *)
Ltac frame_case w :=
  unfold opcode_at;
  cbn [snd Emu.cpu Emu.stdin Emu.stdout Emu.ram Emu.reg Emu.zero
       Emu.running Emu.trace flag_of_A
       Emu.with_ram Emu.with_reg Emu.with_pc Emu.with_zero];
  destruct (Emu.zero (Emu.cpu w)) eqn:?;
  cbn [snd Emu.cpu Emu.stdin Emu.stdout Emu.ram Emu.reg Emu.zero
       Emu.running Emu.trace flag_of_A
       Emu.with_ram Emu.with_reg Emu.with_pc Emu.with_zero];
  repeat match goal with
  | |- _ /\ _ => split
  | |- _ -> _ =>
      let H := fresh in
      intros H;
      first [ reflexivity
            | assumption
            | exfalso; apply H; assumption
            | exfalso; apply H;
              match goal with e : peek _ _ = _ |- _ => rewrite e end;
              simpl; tauto
            | idtac ]
  | |- _ = _ => first [reflexivity | assumption]
  | |- exists out, _ = _ =>
      unfold trace_out; destruct (Emu.trace (Emu.cpu w)); eexists;
      rewrite <- ?app_assoc;
      first [ reflexivity | symmetry; apply app_nil_r ]
  end.

(** X16: what a step leaves alone.  It never changes the [running] and
    [trace] attributes; it changes the RAM only when the opcode is [STR],
    the registers and the zero flag only when it is [LDI], [MOV], [ADD],
    [SUB] or [IN], and it reads the input only when it is [IN]; the output
    only grows.  This holds when the step raises, too. *)
Theorem X16_step_frame (w : Emu.world) :
  wf (Emu.cpu w) ->
  Emu.running (Emu.cpu (snd (Emu.step w))) = Emu.running (Emu.cpu w) /\
  Emu.trace (Emu.cpu (snd (Emu.step w))) = Emu.trace (Emu.cpu w) /\
  (opcode_at (Emu.cpu w) <> OP_STR ->
   Emu.ram (Emu.cpu (snd (Emu.step w))) = Emu.ram (Emu.cpu w)) /\
  (~ In (opcode_at (Emu.cpu w)) [OP_LDI; OP_MOV; OP_ADD; OP_SUB; OP_IN] ->
   Emu.reg (Emu.cpu (snd (Emu.step w))) = Emu.reg (Emu.cpu w) /\
   Emu.zero (Emu.cpu (snd (Emu.step w))) = Emu.zero (Emu.cpu w)) /\
  (opcode_at (Emu.cpu w) <> OP_IN ->
   Emu.stdin (snd (Emu.step w)) = Emu.stdin w) /\
  (exists out, Emu.stdout (snd (Emu.step w)) = Emu.stdout w ++ out).
Proof.
  intros Hwf. each_step w Hwf ltac:(frame_case w) ltac:(frame_case w).
Qed.

(** The theorem at [OUT A] on a new CPU: the RAM is the one it was. *)
Lemma X16_step_frame_witness :
  Emu.ram (Emu.cpu (snd (Emu.step
             (Emu.World (machine [0x40; 0] 0) [] []))))
    = Emu.ram (machine [0x40; 0] 0).
Proof.
  assert (Hwf : wf (Emu.cpu (Emu.World (machine [0x40; 0] 0) [] [])))
    by (apply wf_b_true; vm_compute; reflexivity).
  destruct (X16_step_frame _ Hwf) as (_ & _ & H & _).
  apply H. vm_compute. discriminate.
Defined.

(** Close one case of the advance of the counter: the mnemonic is the one
    of the opcode, and its size is known. *)
Ltac counter_case w :=
  idtac;
  match goal with
  | e : peek _ _ = _, Hop : OP _ = Ok _, Hsize : Asm.size _ _ = Ok _ |- _ =>
      unfold opcode_at in Hop; rewrite e in Hop;
      apply OP_table in Hop; vm_compute in Hop;
      repeat (destruct Hop as [Hop|Hop]; [try discriminate Hop|]);
      try contradiction;
      injection Hop as <-; cbv in Hsize; injection Hsize as <-;
      unfold jump_taken, opcode_at, operand1; rewrite e;
      destruct (Emu.zero (Emu.cpu w));
      reflexivity
  end.

(** X17: the emulator consumes what the assembler counts.  When the byte
    at the program counter is the opcode of a mnemonic, a step leaves the
    program counter advanced, modulo 256, by the size the first pass of the
    assembler gives that mnemonic, unless the step is a jump that is taken
    ([JMP], [JZ] with the flag set, [JNZ] with the flag clear), which
    leaves it at the operand byte.  This holds when the step raises,
    too. *)
Theorem X17_counter_advance (w : Emu.world) (name : pystr)
    (args : list pystr) (n : Z) :
  wf (Emu.cpu w) ->
  OP name = Ok (opcode_at (Emu.cpu w)) ->
  Asm.size name args = Ok n ->
  Emu.pc (Emu.cpu (snd (Emu.step w)))
    = if jump_taken (Emu.cpu w) then operand1 (Emu.cpu w)
      else (Emu.pc (Emu.cpu w) + n) mod 256.
Proof.
  intros Hwf Hop Hsize.
  each_step w Hwf ltac:(counter_case w) ltac:(idtac).
  exfalso. apply OP_table in Hop. unfold opcode_at, op_table in Hop.
  cbn [In] in Hop.
  repeat (destruct Hop as [Hop|Hop];
          [injection Hop as _ Hop; congruence|]).
  destruct Hop.
Qed.

(** The theorem at [JZ 9] with the flag clear, at address 255. *)
Lemma X17_counter_advance_witness :
  Emu.pc (Emu.cpu (snd (Emu.step
            (Emu.World
               (Emu.with_pc 255
                  (Emu.with_ram ([9] ++ repeat 0 254 ++ [0x31]) Emu.init))
               [] [])))) = 1.
Proof.
  apply (X17_counter_advance
           (Emu.World
              (Emu.with_pc 255
                 (Emu.with_ram ([9] ++ repeat 0 254 ++ [0x31]) Emu.init))
              [] [])
           (str "JZ") [str "9"] 2).
  - apply wf_b_true. vm_compute. reflexivity.
  - reflexivity.
  - reflexivity.
Defined.

Section Arithmetic.

Import Emu.

Lemma regv_insert_A c c' v :
  wf c -> regv (with_reg (<[0%nat := v]> (reg c)) c') 0 = v.
Proof.
  intros [_ Hg _ _ _]. unfold regv. cbn [reg with_reg].
  rewrite list_lookup_insert_eq; [reflexivity|]. simpl. lia.
Qed.

Lemma regv_insert_A_other c c' v :
  regv (with_reg (<[0%nat := v]> (reg c)) c') 1 = regv c 1.
Proof.
  unfold regv. cbn [reg with_reg].
  now rewrite list_lookup_insert_ne by discriminate.
Qed.

End Arithmetic.

(** X18: [ADD] and [SUB] write register A, whichever registers their
    operands select: A becomes the sum, or the difference, of the two
    selected registers modulo 256, register B and the RAM are unchanged,
    the flag says whether A is now 0, and the counter advances by 3.  So
    [SUB] of a register from itself always clears A and sets the flag. *)
Theorem X18_add_sub (w : Emu.world) (r1 r2 : Z) :
  wf (Emu.cpu w) ->
  In (opcode_at (Emu.cpu w)) [OP_ADD; OP_SUB] ->
  operand1 (Emu.cpu w) = r1 -> 0 <= r1 < 2 ->
  operand2 (Emu.cpu w) = r2 -> 0 <= r2 < 2 ->
  exists w',
    Emu.step w = (Ok true, w') /\
    regv (Emu.cpu w') 0
      = (if opcode_at (Emu.cpu w) =? OP_ADD
         then regv (Emu.cpu w) r1 + regv (Emu.cpu w) r2
         else regv (Emu.cpu w) r1 - regv (Emu.cpu w) r2) mod 256 /\
    regv (Emu.cpu w') 1 = regv (Emu.cpu w) 1 /\
    Emu.zero (Emu.cpu w') = (regv (Emu.cpu w') 0 =? 0) /\
    Emu.ram (Emu.cpu w') = Emu.ram (Emu.cpu w) /\
    Emu.pc (Emu.cpu w') = (Emu.pc (Emu.cpu w) + 3) mod 256 /\
    (opcode_at (Emu.cpu w) = OP_SUB -> r1 = r2 ->
     regv (Emu.cpu w') 0 = 0 /\ Emu.zero (Emu.cpu w') = true).
Proof.
  unfold opcode_at, operand1, operand2.
  intros Hwf Hop <- Hr1 <- Hr2. simpl In in Hop.
  destruct Hop as [Hop|[Hop|[]]]; symmetry in Hop; eexists.
  - split; [apply (step_ADD w Hwf Hop Hr1 Hr2)|].
    unfold flag_of_A.
    cbn [Emu.cpu Emu.zero Emu.with_zero Emu.ram Emu.pc
         Emu.with_reg Emu.with_pc].
    rewrite Hop. change (OP_ADD =? OP_ADD) with true. cbv iota.
    change (regv (Emu.with_zero ?b ?c) ?r) with (regv c r).
    rewrite regv_insert_A by assumption.
    split; [reflexivity|]. split; [apply regv_insert_A_other|].
    split; [reflexivity|]. split; [reflexivity|]. split; [reflexivity|].
    intros E _. discriminate E.
  - split; [apply (step_SUB w Hwf Hop Hr1 Hr2)|].
    unfold flag_of_A.
    cbn [Emu.cpu Emu.zero Emu.with_zero Emu.ram Emu.pc
         Emu.with_reg Emu.with_pc].
    rewrite Hop. change (OP_SUB =? OP_ADD) with false. cbv iota.
    change (regv (Emu.with_zero ?b ?c) ?r) with (regv c r).
    rewrite regv_insert_A by assumption.
    split; [reflexivity|]. split; [apply regv_insert_A_other|].
    split; [reflexivity|]. split; [reflexivity|]. split; [reflexivity|].
    intros _ E. rewrite E, Z.sub_diag. split; reflexivity.
Qed.

(** The theorem at [ADD B, B] with B = 200. *)
Lemma X18_add_sub_witness :
  exists w',
    Emu.step (Emu.World (Emu.with_reg [7; 200] (machine [0x20; 1; 1] 0))
                [] []) = (Ok true, w') /\
    regv (Emu.cpu w') 0 = 144 /\ regv (Emu.cpu w') 1 = 200.
Proof.
  destruct (X18_add_sub
              (Emu.World (Emu.with_reg [7; 200] (machine [0x20; 1; 1] 0))
                 [] []) 1 1)
    as (w' & E & HA & HB & _).
  - apply wf_b_true. vm_compute. reflexivity.
  - left. reflexivity.
  - reflexivity.
  - lia.
  - reflexivity.
  - lia.
  - exists w'. split; [exact E|]. split; [exact HA|exact HB].
Defined.

(** X19: at every address below 255, a byte that is no opcode makes the
    step halt and print [Unknown opcode XX at YY] with the byte and the
    address it was fetched at, after the trace line if tracing is on;
    nothing changes but the program counter, which has advanced by 1. *)
Theorem X19_unknown_opcode_below_255 (w : Emu.world) :
  wf (Emu.cpu w) ->
  ~ In (opcode_at (Emu.cpu w)) opcodes ->
  Emu.pc (Emu.cpu w) < 255 ->
  Emu.step w
    = (Ok false,
       Emu.World (Emu.with_pc (Emu.pc (Emu.cpu w) + 1) (Emu.cpu w))
         (Emu.stdin w)
         (trace_out w
          ++ (str "Unknown opcode " ++ Emu.fmt_02X (opcode_at (Emu.cpu w))
              ++ str " at " ++ Emu.fmt_02X (Emu.pc (Emu.cpu w)))
          ++ ["010"%char])).
Proof.
  intros Hwf Hun Hpc. pose proof (wf_pc _ Hwf) as Hb. unfold is_byte in Hb.
  rewrite (step_unknown w Hwf Hun).
  rewrite Z.mod_small by lia.
  replace (Emu.pc (Emu.cpu w) + 1 - 1) with (Emu.pc (Emu.cpu w)) by lia.
  reflexivity.
Qed.

(** The theorem at the byte 0x99 at address 16. *)
Lemma X19_unknown_opcode_below_255_witness :
  Emu.step (Emu.World (machine (repeat 0 16 ++ [0x99]) 16) [] [])
    = (Ok false,
       Emu.World (machine (repeat 0 16 ++ [0x99]) 17) []
         (str "Unknown opcode 99 at 10" ++ ["010"%char])).
Proof.
  rewrite X19_unknown_opcode_below_255.
  - reflexivity.
  - apply wf_b_true. vm_compute. reflexivity.
  - vm_compute. intuition discriminate.
  - vm_compute. reflexivity.
Defined.

Section Running.

Import Emu.

Lemma with_pc_same c : with_pc (pc c) c = c.
Proof. destruct c. reflexivity. Qed.

(** A jump to its own address leaves the CPU as it is, step after step. *)
Lemma loop_self_jump fuel :
  forall w, wf (cpu w) ->
    peek (cpu w) (pc (cpu w)) = OP_JMP ->
    peek (cpu w) ((pc (cpu w) + 1) mod 256) = pc (cpu w) ->
    exists w', loop fuel w = (Ok false, w') /\ cpu w' = cpu w
               /\ stdin w' = stdin w.
Proof.
  induction fuel as [|fuel IH]; intros w Hwf Hop Hto.
  - exists w. repeat split; reflexivity.
  - cbn [loop]. unfold bind at 1. rewrite (step_JMP w Hwf Hop), Hto.
    rewrite with_pc_same.
    destruct (IH (World (cpu w) (stdin w) (trace_out w)))
      as (w' & E & Hc & Hi); try assumption.
    exists w'. repeat split; assumption.
Qed.

End Running.

(** X20: [run] started at an address that holds a jump to that same address
    never comes back: however many steps it is given, it has not halted,
    and the CPU is still as it was when the loop began, with the input
    untouched. *)
Theorem X20_jump_to_itself (w : Emu.world) (start : Z) (tr : bool)
    (fuel : nat) :
  wf (Emu.cpu w) ->
  peek (Emu.cpu w) (start mod 256) = OP_JMP ->
  peek (Emu.cpu w) ((start mod 256 + 1) mod 256) = start mod 256 ->
  exists w',
    Emu.run start tr fuel w = (Ok false, w') /\
    Emu.cpu w' = started start tr (Emu.cpu w) /\
    Emu.stdin w' = Emu.stdin w.
Proof.
  intros Hwf Hop Hto.
  destruct (loop_self_jump fuel
              (Emu.World (started start tr (Emu.cpu w)) (Emu.stdin w)
                 (Emu.stdout w)))
    as (w' & E & Hc & Hi).
  - destruct Hwf. constructor; try assumption. apply mod_is_byte.
  - exact Hop.
  - exact Hto.
  - exists w'. split; [|split; assumption].
    unfold Emu.run. rewrite !bind_modify. cbn [Emu.cpu Emu.stdin Emu.stdout].
    unfold Emu.bind at 1. unfold started, Emu.RAM_SIZE in *. rewrite E.
    reflexivity.
Qed.

(** The theorem at [JMP 4] placed at address 4. *)
Lemma X20_jump_to_itself_witness :
  exists w',
    Emu.run 4 false 1000
      (Emu.World (machine [0; 0; 0; 0; 0x30; 4] 0) [] [])
      = (Ok false, w').
Proof.
  destruct (X20_jump_to_itself
              (Emu.World (machine [0; 0; 0; 0; 0x30; 4] 0) [] [])
              4 false 1000) as (w' & E & _).
  - apply wf_b_true. vm_compute. reflexivity.
  - vm_compute. reflexivity.
  - vm_compute. reflexivity.
  - exists w'. exact E.
Defined.

Section Dumps.

Import Emu.

Lemma header_every_16 start k :
  (((start + k) mod 256 - start) mod 16 =? 0) = (k mod 16 =? 0).
Proof.
  f_equal. rewrite Zminus_mod.
  rewrite (Z.mod_mod_divide _ 256 16) by (exists 16; lia).
  rewrite <- Zminus_mod. f_equal. lia.
Qed.

Lemma dump_loop_text start n :
  forall k w, wf (cpu w) ->
    dump_loop start (start + Z.of_nat k) n w
    = (Ok tt,
       World (cpu w) (stdin w)
         (stdout w ++ concat (map (cell_text (cpu w) start) (seq k n)))).
Proof.
  induction n as [|n IH]; intros k w Hwf.
  - cbn. rewrite app_nil_r. destruct w; reflexivity.
  - cbn [dump_loop seq map concat]. unfold RAM_SIZE.
    rewrite header_every_16. unfold cell_text at 1.
    pose proof (wf_ram_len _ Hwf) as Hl.
    replace (start + Z.of_nat k + 1) with (start + Z.of_nat (S k)) by lia.
    destruct (Z.of_nat k mod 16 =? 0).
    + rewrite bind_write, bind_ram_get by (try apply mod_is_byte; exact Hl).
      rewrite bind_write. cbn [cpu stdin stdout].
      rewrite IH by exact Hwf. cbn [cpu stdin stdout].
      rewrite <- !app_assoc. reflexivity.
    + rewrite bind_ret, bind_ram_get by (try apply mod_is_byte; exact Hl).
      rewrite bind_write.
      rewrite IH by exact Hwf. cbn [cpu stdin stdout].
      rewrite <- !app_assoc. reflexivity.
Qed.

Lemma fmt_byte_length z : is_byte z -> length (fmt_02X z) = 2%nat.
Proof.
  intros H. apply in_bytes in H.
  assert (E : forallb (fun z => Nat.eqb (length (fmt_02X z)) 2) bytes = true)
    by (vm_compute; reflexivity).
  rewrite forallb_forall in E. apply Nat.eqb_eq, E, H.
Qed.

End Dumps.

(** X21: on a well-formed CPU [dump_mem] never fails, for any start and
    length, negative ones and ranges that pass address 255 included.  It
    changes nothing in the CPU, reads no input, and prints, for the cells
    from [start] on, wrapping at 256, two hex digits and a space each,
    with a new line and the cell's address in front of the first cell and
    of every sixteenth after it, then a final newline.  With a length of
    0 or less it prints only that newline. *)
Theorem X21_dump_mem (w : Emu.world) (start length : Z) :
  wf (Emu.cpu w) ->
  Emu.dump_mem start length w
  = (Ok tt,
     Emu.World (Emu.cpu w) (Emu.stdin w)
       (Emu.stdout w ++ dump_text (Emu.cpu w) start (Z.to_nat length)
        ++ ["010"%char]))
  /\ (length <= 0 -> dump_text (Emu.cpu w) start (Z.to_nat length) = []).
Proof.
  intros Hwf. split.
  - unfold Emu.dump_mem, Emu.bind, Emu.print, Emu.write.
    replace start with (start + Z.of_nat 0) at 2 by (simpl; lia).
    rewrite dump_loop_text by exact Hwf. cbn [Emu.cpu Emu.stdin Emu.stdout].
    unfold dump_text. rewrite <- app_assoc. reflexivity.
  - intros Hle. replace (Z.to_nat length) with 0%nat by lia. reflexivity.
Qed.

(** The theorem at a dump of 3 cells from address 254 of a loaded image. *)
Lemma X21_dump_mem_witness :
  Emu.dump_mem 254 3 (Emu.World (machine [0x10; 0; 0x41] 0) [] [])
  = (Ok tt,
     Emu.World (machine [0x10; 0; 0x41] 0) []
       (["010"%char] ++ str "FE: 00 00 10 " ++ ["010"%char])).
Proof.
  refine (proj1 (X21_dump_mem
                   (Emu.World (machine [0x10; 0; 0x41] 0) [] []) 254 3 _)).
  apply wf_b_true. vm_compute. reflexivity.
Defined.

(** X22: on a well-formed CPU [dump_regs] never fails, changes nothing and
    prints one line of 25 characters before the newline: the counter and
    the two registers as two hex digits each, and the flag as 0 or 1. *)
Theorem X22_dump_regs (w : Emu.world) :
  wf (Emu.cpu w) ->
  Emu.dump_regs w
  = (Ok tt,
     Emu.World (Emu.cpu w) (Emu.stdin w)
       (Emu.stdout w ++ regs_line (Emu.cpu w) ++ ["010"%char]))
  /\ length (regs_line (Emu.cpu w)) = 25%nat.
Proof.
  intros Hwf. pose proof (wf_reg_len _ Hwf) as Hg. split.
  - unfold Emu.dump_regs. rewrite bind_gets.
    rewrite !bind_reg_get by (try lia; exact Hg). rewrite bind_gets.
    unfold Emu.print, Emu.write, regs_line.
    rewrite <- !app_assoc. reflexivity.
  - unfold regs_line. rewrite !length_app.
    rewrite !fmt_byte_length
      by first [apply (wf_pc _ Hwf) | apply wf_regv, Hwf].
    destruct (Emu.zero (Emu.cpu w)); reflexivity.
Qed.

(** The theorem on the new CPU. *)
Lemma X22_dump_regs_witness :
  Emu.dump_regs (Emu.World Emu.init [] [])
  = (Ok tt,
     Emu.World Emu.init []
       (str "PC: 00  A: 00  B: 00  Z:0" ++ ["010"%char])).
Proof.
  refine (proj1 (X22_dump_regs (Emu.World Emu.init [] []) _)).
  apply wf_init.
Defined.

Section Echo.

Import Emu.

Lemma chr_ord ch : chr (ord ch) = ch.
Proof. unfold chr, ord. rewrite N2Z.id. apply ascii_N_embedding. Qed.

Lemma chr_next_input w : chr (next_input w) = echoed w.
Proof.
  unfold next_input, echoed. destruct (stdin w); [reflexivity|].
  apply chr_ord.
Qed.

Lemma regv_insert_eq c c' r v :
  wf c -> 0 <= r < 2 ->
  regv (with_reg (<[Z.to_nat r := v]> (reg c)) c') r = v.
Proof.
  intros Hwf Hr. unfold regv. cbn [reg with_reg].
  rewrite list_lookup_insert_eq; [reflexivity|].
  rewrite (wf_reg_len _ Hwf). lia.
Qed.

Lemma trace_out_quiet w : trace (cpu w) = false -> trace_out w = stdout w.
Proof. intros H. unfold trace_out. now rewrite H. Qed.

End Echo.

(** X23: [IN r] followed by [OUT r], with tracing off, passes one character
    from the input to the output: after the two steps the output has grown
    by exactly the first input character (characters are those with a code
    below 256), the input has lost it, the register holds its code and the
    counter has advanced by 4.  At the end of the input the character
    written is NUL. *)
Theorem X23_in_then_out (w : Emu.world) (r : Z) :
  wf (Emu.cpu w) ->
  Emu.trace (Emu.cpu w) = false ->
  0 <= r < 2 ->
  opcode_at (Emu.cpu w) = OP_IN ->
  operand1 (Emu.cpu w) = r ->
  peek (Emu.cpu w) ((Emu.pc (Emu.cpu w) + 2) mod 256) = OP_OUT ->
  peek (Emu.cpu w) ((Emu.pc (Emu.cpu w) + 3) mod 256) = r ->
  exists w1 w2,
    Emu.step w = (Ok true, w1) /\
    Emu.step w1 = (Ok true, w2) /\
    Emu.stdout w2 = Emu.stdout w ++ [echoed w] /\
    Emu.stdin w2 = tail (Emu.stdin w) /\
    regv (Emu.cpu w2) r = next_input w /\
    Emu.pc (Emu.cpu w2) = (Emu.pc (Emu.cpu w) + 4) mod 256.
Proof.
  unfold opcode_at, operand1.
  intros Hwf Htr Hr Hin Hr1 Hout Hr2.
  assert (Hr' : 0 <= peek (Emu.cpu w) ((Emu.pc (Emu.cpu w) + 1) mod 256) < 2)
    by (rewrite Hr1; exact Hr).
  pose proof (step_IN w Hwf Hin Hr') as E1.
  rewrite Hr1, (trace_out_quiet w Htr) in E1.
  set (c1 := flag_of_A
               (Emu.with_reg (<[Z.to_nat r := next_input w]>
                                (Emu.reg (Emu.cpu w)))
                  (Emu.with_pc ((Emu.pc (Emu.cpu w) + 2) mod 256)
                     (Emu.cpu w)))) in E1.
  set (w1 := Emu.World c1 (tail (Emu.stdin w)) (Emu.stdout w)) in E1.
  assert (Hwf1 : wf (Emu.cpu w1)).
  { apply wf_flag_of_A, wf_reg_insert;
      [apply wf_with_pc; [exact Hwf|apply mod_is_byte]
      |exact Hwf|apply next_input_is_byte]. }
  assert (Hpeek : forall i, peek (Emu.cpu w1) i = peek (Emu.cpu w) i)
    by reflexivity.
  assert (Hpc : Emu.pc (Emu.cpu w1) = (Emu.pc (Emu.cpu w) + 2) mod 256)
    by reflexivity.
  assert (Hout1 : peek (Emu.cpu w1) (Emu.pc (Emu.cpu w1)) = OP_OUT)
    by (rewrite Hpeek, Hpc; exact Hout).
  assert (Hr21 : peek (Emu.cpu w1) ((Emu.pc (Emu.cpu w1) + 1) mod 256) = r)
    by (rewrite Hpeek, Hpc, mod_succ2; exact Hr2).
  assert (Hr1' : 0 <= peek (Emu.cpu w1) ((Emu.pc (Emu.cpu w1) + 1) mod 256)
                 < 2)
    by (rewrite Hr21; exact Hr).
  pose proof (step_OUT w1 Hwf1 Hout1 Hr1') as E2.
  rewrite Hr21, (trace_out_quiet w1 Htr) in E2.
  assert (Hv : regv (Emu.cpu w1) r = next_input w).
  { unfold w1, c1, flag_of_A. cbn [Emu.cpu].
    change (regv (Emu.with_zero ?b ?c) ?x) with (regv c x).
    apply regv_insert_eq; assumption. }
  eexists; eexists. split; [exact E1|]. split; [exact E2|].
  cbn [Emu.stdout Emu.stdin Emu.cpu].
  change (regv (Emu.with_pc ?p ?c) ?x) with (regv c x).
  rewrite Hv, chr_next_input.
  split; [reflexivity|]. split; [reflexivity|]. split; [reflexivity|].
  cbn [Emu.pc Emu.with_pc]. rewrite Hpc.
  rewrite Zplus_mod_idemp_l. f_equal. lia.
Qed.

(** The theorem at [IN B] / [OUT B] with the input [hi]. *)
Lemma X23_in_then_out_witness :
  exists w1 w2,
    Emu.step (Emu.World (machine [0x41; 1; 0x40; 1] 0) (str "hi") [])
      = (Ok true, w1) /\
    Emu.step w1 = (Ok true, w2) /\
    Emu.stdout w2 = str "h" /\ Emu.stdin w2 = str "i".
Proof.
  destruct (X23_in_then_out
              (Emu.World (machine [0x41; 1; 0x40; 1] 0) (str "hi") []) 1)
    as (w1 & w2 & E1 & E2 & Ho & Hi & _).
  - apply wf_b_true. vm_compute. reflexivity.
  - reflexivity.
  - lia.
  - reflexivity.
  - reflexivity.
  - reflexivity.
  - reflexivity.
  - exists w1, w2. split; [exact E1|]. split; [exact E2|].
    split; [exact Ho|exact Hi].
Defined.

(** X24: [STR r, a] followed by [MOV r', a] copies register [r] into
    register [r'] through the RAM cell [a], provided [a] is not one of the
    three cells that hold the [MOV] itself: after the two steps the cell
    and [r'] both hold what [r] held, the other register is as it was, and
    the flag says whether A is now 0. *)
Theorem X24_store_then_load (w : Emu.world) (r r' a : Z) :
  wf (Emu.cpu w) ->
  0 <= r < 2 -> 0 <= r' < 2 ->
  opcode_at (Emu.cpu w) = OP_STR ->
  operand1 (Emu.cpu w) = r ->
  operand2 (Emu.cpu w) = a ->
  peek (Emu.cpu w) ((Emu.pc (Emu.cpu w) + 3) mod 256) = OP_MOV ->
  peek (Emu.cpu w) ((Emu.pc (Emu.cpu w) + 4) mod 256) = r' ->
  peek (Emu.cpu w) ((Emu.pc (Emu.cpu w) + 5) mod 256) = a ->
  ~ In a [(Emu.pc (Emu.cpu w) + 3) mod 256;
          (Emu.pc (Emu.cpu w) + 4) mod 256;
          (Emu.pc (Emu.cpu w) + 5) mod 256] ->
  exists w1 w2,
    Emu.step w = (Ok true, w1) /\
    Emu.step w1 = (Ok true, w2) /\
    peek (Emu.cpu w2) a = regv (Emu.cpu w) r /\
    regv (Emu.cpu w2) r' = regv (Emu.cpu w) r /\
    (forall q, 0 <= q < 2 -> q <> r' ->
               regv (Emu.cpu w2) q = regv (Emu.cpu w) q) /\
    Emu.zero (Emu.cpu w2) = (regv (Emu.cpu w2) 0 =? 0).
Proof.
  unfold opcode_at, operand1, operand2.
  intros Hwf Hr Hr' Hstr Hr1 Ha Hmov Hr2 Ha2 Hfree.
  assert (Hab : is_byte a) by (rewrite <- Ha; apply wf_peek, Hwf).
  assert (Hb1 : 0 <= peek (Emu.cpu w) ((Emu.pc (Emu.cpu w) + 1) mod 256) < 2)
    by (rewrite Hr1; exact Hr).
  pose proof (step_STR w Hwf Hstr Hb1) as E1.
  rewrite Hr1, Ha in E1.
  set (c1 := Emu.with_ram (<[Z.to_nat a := regv (Emu.cpu w) r]>
                             (Emu.ram (Emu.cpu w)))
               (Emu.with_pc ((Emu.pc (Emu.cpu w) + 3) mod 256) (Emu.cpu w)))
    in E1.
  set (w1 := Emu.World c1 (Emu.stdin w) (trace_out w)) in E1.
  assert (Hwf1 : wf (Emu.cpu w1)).
  { apply wf_ram_insert;
      [apply wf_with_pc; [exact Hwf|apply mod_is_byte]
      |exact Hwf|apply wf_regv, Hwf]. }
  assert (Hkeep : forall j, is_byte j -> j <> a ->
                    peek (Emu.cpu w1) j = peek (Emu.cpu w) j).
  { intros j Hj Hne. apply peek_insert_ne; assumption. }
  assert (Hcell : peek (Emu.cpu w1) a = regv (Emu.cpu w) r)
    by (apply peek_insert_eq; assumption).
  assert (Hpc : Emu.pc (Emu.cpu w1) = (Emu.pc (Emu.cpu w) + 3) mod 256)
    by reflexivity.
  assert (Hregs : forall q, regv (Emu.cpu w1) q = regv (Emu.cpu w) q)
    by reflexivity.
  simpl In in Hfree.
  assert (Hmov1 : peek (Emu.cpu w1) (Emu.pc (Emu.cpu w1)) = OP_MOV).
  { rewrite Hpc, Hkeep; [exact Hmov|apply mod_is_byte|intuition]. }
  assert (Hr21 : peek (Emu.cpu w1) ((Emu.pc (Emu.cpu w1) + 1) mod 256) = r').
  { rewrite Hpc, (mod_succ _ 3). change (3 + 1) with 4.
    rewrite Hkeep; [exact Hr2|apply mod_is_byte|intuition]. }
  assert (Ha21 : peek (Emu.cpu w1) ((Emu.pc (Emu.cpu w1) + 2) mod 256) = a).
  { rewrite Hpc, Zplus_mod_idemp_l.
    replace (Emu.pc (Emu.cpu w) + 3 + 2) with (Emu.pc (Emu.cpu w) + 5)
      by lia.
    rewrite Hkeep; [exact Ha2|apply mod_is_byte|intuition]. }
  assert (Hb1' : 0 <= peek (Emu.cpu w1) ((Emu.pc (Emu.cpu w1) + 1) mod 256)
                 < 2)
    by (rewrite Hr21; exact Hr').
  pose proof (step_MOV w1 Hwf1 Hmov1 Hb1') as E2.
  rewrite Hr21, Ha21, Hcell in E2.
  eexists; eexists. split; [exact E1|]. split; [exact E2|].
  unfold flag_of_A. cbn [Emu.cpu Emu.zero Emu.with_zero].
  change (regv (Emu.with_zero ?b ?c) ?x) with (regv c x).
  change (peek (Emu.with_zero ?b ?c) ?x) with (peek c x).
  split; [exact Hcell|].
  split; [apply regv_insert_eq; assumption|].
  split; [|reflexivity].
  intros q Hq Hne. rewrite <- Hregs.
  unfold regv. cbn [Emu.reg Emu.with_reg].
  rewrite list_lookup_insert_ne by lia. reflexivity.
Qed.

(** The theorem at [STR A, 9] / [MOV B, 9] with A = 77. *)
Lemma X24_store_then_load_witness :
  exists w1 w2,
    Emu.step (Emu.World (Emu.with_reg [77; 3]
                           (machine [0x12; 0; 9; 0x11; 1; 9] 0)) [] [])
      = (Ok true, w1) /\
    Emu.step w1 = (Ok true, w2) /\
    peek (Emu.cpu w2) 9 = 77 /\ regv (Emu.cpu w2) 1 = 77.
Proof.
  destruct (X24_store_then_load
              (Emu.World (Emu.with_reg [77; 3]
                            (machine [0x12; 0; 9; 0x11; 1; 9] 0)) [] [])
              0 1 9)
    as (w1 & w2 & E1 & E2 & Hc & Hv & _).
  - apply wf_b_true. vm_compute. reflexivity.
  - lia.
  - lia.
  - reflexivity.
  - reflexivity.
  - reflexivity.
  - reflexivity.
  - reflexivity.
  - reflexivity.
  - vm_compute. intuition discriminate.
  - exists w1, w2. split; [exact E1|]. split; [exact E2|].
    split; [exact Hc|exact Hv].
Defined.

(** ** Labels bound to values above 255 *)

Section LabelValues.

Import Asm.
Local Open Scope result_scope.














End LabelValues.



